(** * Shallow embedding of the garment-fitting pipeline of [src/main.py]

    Numbers: numpy float64 values are modelled as exact rationals [Qc]
    (canonical rationals, so equality is Leibniz).  Rounding is not
    modelled.  [Qcdiv x 0 = 0] where numpy gives [inf]/[nan]; no statement
    below depends on the value of a division by zero.

    Objects: Python mesh objects live on a heap (a list indexed by
    location); a Python reference to a mesh is a location, [None] is
    [None].  [copy.deepcopy] allocates a fresh location, the trimesh
    methods [apply_transform] mutate the object in place.

    Effects: a state monad over heap and stdout, with Python exceptions. *)

From Stdlib Require Import QArith Qcanon String.
From stdpp Require Import base list.

Open Scope Qc_scope.

(** ** Data *)

(** A 3-vector (a vertex, an [extents] or [centroid] array). *)
Record V3 := mkV3 { vx : Qc; vy : Qc; vz : Qc }.

(** A [trimesh.Trimesh]: vertex array and triangle index array. *)
Record mesh := mkMesh { vertices : list V3; faces : list (nat * nat * nat) }.

(** A 4x4 numpy matrix, row major. *)
Definition Mat4 := list (list Qc).

Definition q (x : Q) : Qc := Q2Qc x.

Definition v3_to_list (v : V3) : list Qc := [vx v; vy v; vz v].

Definition vsub (a b : V3) : V3 := mkV3 (vx a - vx b) (vy a - vy b) (vz a - vz b).
Definition vdiv (a b : V3) : V3 := mkV3 (vx a / vx b) (vy a / vy b) (vz a / vz b).
Definition vmul (a b : V3) : V3 := mkV3 (vx a * vx b) (vy a * vy b) (vz a * vz b).

(** [np.maximum] / [np.minimum] on one coordinate. *)
Definition qmax (a b : Qc) : Qc := match a ?= b with Lt => b | _ => a end.
Definition qmin (a b : Qc) : Qc := match a ?= b with Gt => b | _ => a end.

Definition vmax (a b : V3) : V3 := mkV3 (qmax (vx a) (vx b)) (qmax (vy a) (vy b)) (qmax (vz a) (vz b)).
Definition vmin (a b : V3) : V3 := mkV3 (qmin (vx a) (vx b)) (qmin (vy a) (vy b)) (qmin (vz a) (vz b)).

(** *** trimesh geometry used by the source *)

(** [Trimesh.referenced_vertices]: the vertices some face indexes. *)
Definition face_mentions (i : nat) (f : nat * nat * nat) : bool :=
  let '(a, b, c) := f in (Nat.eqb i a || Nat.eqb i b || Nat.eqb i c)%bool.

Fixpoint referenced_from (i : nat) (vs : list V3) (fs : list (nat * nat * nat)) : list V3 :=
  match vs with
  | [] => []
  | v :: vs' =>
      if existsb (face_mentions i) fs then v :: referenced_from (S i) vs' fs
      else referenced_from (S i) vs' fs
  end.

Definition referenced (m : mesh) : list V3 := referenced_from 0 (vertices m) (faces m).

(** [Trimesh.bounds] / [Trimesh.extents]: [None] when no vertex is
    referenced (an empty mesh), else [max - min] over the referenced
    vertices. *)
Definition extents (m : mesh) : option V3 :=
  match referenced m with
  | [] => None
  | v :: vs => Some (vsub (fold_left vmax vs v) (fold_left vmin vs v))
  end.

(** [trimesh.transformations.transform_points]: [(M @ [p;1])[:3]]. *)
Definition row_apply (r : list Qc) (p : V3) : Qc :=
  nth 0 r 0 * vx p + nth 1 r 0 * vy p + nth 2 r 0 * vz p + nth 3 r 0.

Definition transform_point (M : Mat4) (p : V3) : V3 :=
  mkV3 (row_apply (nth 0 M []) p) (row_apply (nth 1 M []) p) (row_apply (nth 2 M []) p).

Definition entry (M : Mat4) (i j : nat) : Qc := nth j (nth i M []) 0.

Definition det3 (M : Mat4) : Qc :=
  entry M 0 0 * (entry M 1 1 * entry M 2 2 - entry M 1 2 * entry M 2 1)
  - entry M 0 1 * (entry M 1 0 * entry M 2 2 - entry M 1 2 * entry M 2 0)
  + entry M 0 2 * (entry M 1 0 * entry M 2 1 - entry M 1 1 * entry M 2 0).

(** [Trimesh.apply_transform] on a (4,4) matrix: vertices mapped by the
    matrix, face winding flipped ([np.fliplr]) when the matrix reflects. *)
Definition flip_face (f : nat * nat * nat) : nat * nat * nat :=
  let '(a, b, c) := f in (c, b, a).

Definition apply_transform_mesh (M : Mat4) (m : mesh) : mesh :=
  mkMesh (map (transform_point M) (vertices m))
         (match det3 M ?= 0 with Lt => map flip_face (faces m) | _ => faces m end).

Definition is_4x4 (M : Mat4) : bool :=
  Nat.eqb (length M) 4 && forallb (fun r => Nat.eqb (length r) 4) M.

(** [np.eye(4)] with [[:3,:3] = np.diag([a,b,c])]. *)
Definition scale_matrix (a b c : Qc) : Mat4 :=
  [[a; 0; 0; 0]; [0; b; 0; 0]; [0; 0; c; 0]; [0; 0; 0; 1]].

(** [np.eye(4)] with [[:3,3] = [a,b,c]]. *)
Definition translation_matrix (a b c : Qc) : Mat4 :=
  [[1; 0; 0; a]; [0; 1; 0; b]; [0; 0; 1; c]; [0; 0; 0; 1]].

Definition eye4 : Mat4 := translation_matrix 0 0 0.

(** ** Python state and exceptions *)

(** Exceptions.  [TypeError] and [AttributeError] are raised by the
    program's own operators outside any [try], so their messages are never
    printed and are not kept.  An exception raised inside a library call
    (trimesh, numpy, pyrender) is a [LibError] carrying [str(e)]: those are
    the ones the two [except Exception as e] handlers print. *)
Inductive exn :=
| TypeError
| AttributeError
| LibError (msg : string).

(** [str(e)] *)
Definition show_exn (e : exn) : string :=
  match e with
  | TypeError => "TypeError"
  | AttributeError => "AttributeError"
  | LibError msg => msg
  end.

(** trimesh's [ValueError] for a matrix whose shape is not (4, 4)
    ([np.asanyarray(None, dtype=np.float64)] has shape ()). *)
Definition shape_error : string := "Transformation matrix must be (4, 4)!".

(** numpy's [TypeError] for [np.median(None)]. *)
Definition median_none_error : string :=
  "unsupported operand type(s) for /: 'NoneType' and 'int'".

Definition loc := nat.

Record state := mkState { heap : list mesh; stdout : list string }.

Definition M (A : Type) := state -> (exn + A) * state.

Definition ret {A} (x : A) : M A := fun s => (inr x, s).
Definition bind {A B} (m : M A) (f : A -> M B) : M B :=
  fun s => match m s with
           | (inl e, s') => (inl e, s')
           | (inr x, s') => f x s'
           end.
Definition raise {A} (e : exn) : M A := fun s => (inl e, s).

(** [try: body except Exception as e: handler e] *)
Definition try_except {A} (body : M A) (handler : exn -> M A) : M A :=
  fun s => match body s with
           | (inl e, s') => handler e s'
           | r => r
           end.

(** A collaborator's result lifted into the monad. *)
Definition lift {A} (r : exn + A) : M A := fun s => (r, s).

Notation "'let!' x := m 'in' k" := (bind m (fun x => k))
  (at level 200, x name, m at level 100, k at level 200).

Definition print (msg : string) : M unit :=
  fun s => (inr tt, mkState (heap s) (stdout s ++ [msg])).

(** Attribute access on a live object. *)
Definition load (l : loc) : M mesh :=
  fun s => match heap s !! l with
           | Some m => (inr m, s)
           | None => (inl AttributeError, s)
           end.

Definition store (l : loc) (m : mesh) : M unit :=
  fun s => (inr tt, mkState (<[l := m]> (heap s)) (stdout s)).

(** [copy.deepcopy(mesh)]: a fresh object with the same content. *)
Definition deepcopy (l : loc) : M loc :=
  let! m := load l in
  fun s => (inr (length (heap s)), mkState (heap s ++ [m]) (stdout s)).

(** [mesh.apply_transform(matrix)] *)
Definition apply_transform (l : loc) (Mx : Mat4) : M unit :=
  if is_4x4 Mx then (let! m := load l in store l (apply_transform_mesh Mx m))
  else raise (LibError shape_error).

(** A [scale_factors] / [translation] argument: a [list] or 1-d
    [np.ndarray] of numbers, a [tuple] of numbers, or any other value that
    is not a [list] or an [np.ndarray] (arrays of higher dimension are not
    modelled). *)
Inductive pyvec := PySeq (xs : list Qc) | PyTuple (xs : list Qc) | PyOther.

(** ** [src/main.py] *)

(** [scale_mesh] (lines 77-85). *)
Definition scale_mesh (mesh : option loc) (scale_factors : pyvec) : M (option loc) :=
  match mesh, scale_factors with
  | Some l, PySeq [a; b; c] =>
      let! _ := apply_transform l (scale_matrix a b c) in ret (Some l)
  | _, _ => ret None
  end.

(** [translate_mesh] (lines 87-95). *)
Definition translate_mesh (mesh : option loc) (translation : pyvec) : M (option loc) :=
  match mesh, translation with
  | Some l, PySeq [a; b; c] =>
      let! _ := apply_transform l (translation_matrix a b c) in ret (Some l)
  | _, _ => ret None
  end.

(** The gender-dependent constants of lines 111-114 and 126-129. *)
Definition pre_scale_ratios (gender : string) : V3 :=
  if String.eqb gender "female" then mkV3 (q 0.71) (q 0.41) (q 1.42)
  else mkV3 (q 0.79) (q 0.43) (q 1.25).

Definition post_scale_factors (gender : string) : list Qc :=
  if String.eqb gender "female" then [q 0.9; q 1.04; q 1.2]
  else [1; q 1.04; q 1.3].

Section Pipeline.

(** trimesh's [Trimesh.centroid] (area weighted, uses square roots). *)
Variable centroid : mesh -> V3.
(** trimesh's [Trimesh.sample(count)]: random surface points, or an exception. *)
Variable sample : mesh -> nat -> exn + list V3.
(** [trimesh.registration.icp(a, b, initial, max_iterations, threshold,
    scale=False)]: the transform of its result ([result[0]] of the tuple),
    [None], or an exception. *)
Variable icp : list V3 -> list V3 -> Mat4 -> nat -> Qc -> exn + option Mat4.

(** [align_meshes_icp] (lines 46-75). *)
Definition align_meshes_icp (target_mesh source_mesh : option loc)
    (max_iterations : nat) (threshold : Qc) : M (option loc) :=
  match target_mesh, source_mesh with
  | Some t, Some s =>
      let! source_copy := deepcopy s in
      let! tm := load t in
      let! target_points := lift (sample tm 5000) in
      let! sm := load source_copy in
      let! source_points := lift (sample sm 5000) in
      try_except
        (let! result := lift (icp source_points target_points eye4 max_iterations threshold) in
         match result with
         | Some transform =>
             let! _ := apply_transform source_copy transform in ret (Some source_copy)
         | None => raise (LibError shape_error)  (* apply_transform(None) *)
         end)
        (fun e => let! _ := print ("ICP Error: " ++ show_exn e)%string in ret None)
  | _, _ => ret None
  end.

(** Lines 108-120 of [fit_t_shirt]: pre-scale a deep copy of the shirt and
    move it over the body; returns [positioned_shirt]. *)
Definition prealign (b s : loc) (gender : string) : M (option loc) :=
  let! body := load b in
  let! shirt := load s in
  match extents body, extents shirt with
  | Some body_size, Some shirt_size =>
      let scale_factors := vmul (vdiv body_size shirt_size) (pre_scale_ratios gender) in
      let! c := deepcopy s in
      let! scaled_shirt := scale_mesh (Some c) (PySeq (v3_to_list scale_factors)) in
      match scaled_shirt with
      | Some sc =>
          let! body' := load b in
          let! scaled := load sc in
          let t := vsub (centroid body') (centroid scaled) in
          let translation := mkV3 (vx t) (vy t + vy body_size * q 0.1) (vz t) in
          translate_mesh (Some sc) (PySeq (v3_to_list translation))
      | None => raise AttributeError   (* None.centroid *)
      end
  | _, _ => raise TypeError   (* None / array: unsupported operand *)
  end.

(** [fit_t_shirt] (lines 97-131). *)
Definition fit_t_shirt (body_mesh shirt_mesh : option loc) (gender : string)
    : M (option loc * option loc) :=
  match body_mesh, shirt_mesh with
  | Some b, Some s =>
      let! positioned_shirt := prealign b s gender in
      let! aligned := align_meshes_icp (Some b) positioned_shirt 100 (q 0.01) in
      let! aligned_shirt :=
        match aligned with
        | None => let! _ := print "Using initial alignment (ICP failed)" in ret positioned_shirt
        | Some a => ret (Some a)
        end in
      let! final_shirt := scale_mesh aligned_shirt (PySeq (post_scale_factors gender)) in
      ret (final_shirt, Some b)
  | _, _ => ret (None, None)
  end.

End Pipeline.

(** *** [load_mesh], [visualize_meshes], [main] *)

(** The Python objects [trimesh.load] (and [trimesh.util.concatenate])
    can return. *)
#[warnings="-register-all"]
Inductive pyobj :=
| PTrimesh (m : mesh)                      (* a trimesh.Trimesh *)
| PScene (geometry : list pyobj)           (* a trimesh.Scene, geometry.values() *)
| PGeometryHolder (geometry : list pyobj)  (* another object with a .geometry dict *)
| PNoGeometry.                             (* anything else, e.g. [] *)

(** A new object on the heap. *)
Definition alloc (m : mesh) : M loc :=
  fun s => (inr (length (heap s)), mkState (heap s ++ [m]) (stdout s)).

(** [[g for g in geometry if isinstance(g, trimesh.Trimesh)]] *)
Fixpoint trimeshes (gs : list pyobj) : list mesh :=
  match gs with
  | [] => []
  | PTrimesh m :: gs' => m :: trimeshes gs'
  | _ :: gs' => trimeshes gs'
  end.

(** [np.median] of a 3-element array: its middle value. *)
Definition median3 (a b c : Qc) : Qc := qmax (qmin a b) (qmin (qmax a b) c).

(** [mesh.apply_scale(k)] for a scalar [k]: [np.eye(4)] with
    [[:3,:3] *= k], then [apply_transform]. *)
Definition apply_scale (l : loc) (k : Qc) : M unit := apply_transform l (scale_matrix k k k).

Section Loading.

(** [trimesh.load(file_path, force='mesh')] *)
Variable trimesh_load : string -> exn + pyobj.
(** [trimesh.util.concatenate(meshes)] *)
Variable concatenate : list mesh -> exn + pyobj.

(** [load_mesh] (lines 6-33).  A loaded mesh without faces has
    [extents = None]; [np.median(None)] raises numpy's [TypeError]. *)
Definition load_mesh (file_path : string) : M (option loc) :=
  try_except
    (let! mesh := lift (trimesh_load file_path) in
     let! mesh :=
       match mesh with
       | PScene geometry => lift (concatenate (trimeshes geometry))
       | _ => ret mesh
       end in
     let mesh :=
       match mesh with
       | PScene (g :: _) | PGeometryHolder (g :: _) => g
       | _ => mesh
       end in
     match mesh with
     | PTrimesh m =>
         let! l := alloc m in
         match extents m with
         | None => raise (LibError median_none_error)
         | Some e =>
             match q 10 ?= median3 (vx e) (vy e) (vz e) with
             | Lt => let! _ := apply_scale l (q 0.001) in ret (Some l)
             | _ => ret (Some l)
             end
         end
     | _ =>
         let! _ := print ("Error: Could not extract Trimesh from " ++ file_path)%string in
         ret None
     end)
    (fun e =>
       let! _ := print ("Error loading " ++ file_path ++ ": " ++ show_exn e)%string in
       ret None).

End Loading.

(** The [meshes] argument of [visualize_meshes]: a list, or a single value. *)
Inductive meshes_arg := MList (xs : list (option loc)) | MSingle (x : option loc).

(** [[m for m in meshes if m is not None]] *)
Fixpoint not_none (xs : list (option loc)) : list loc :=
  match xs with
  | [] => []
  | Some l :: xs' => l :: not_none xs'
  | None :: xs' => not_none xs'
  end.

(** [pyrender.Mesh.from_trimesh] on each mesh, in order. *)
Fixpoint load_all (ls : list loc) : M (list mesh) :=
  match ls with
  | [] => ret []
  | l :: ls' => let! m := load l in let! ms := load_all ls' in ret (m :: ms)
  end.

Section Viewing.

(** [pyrender.Viewer(scene, use_raymond_lighting=True)]: shows the meshes
    added to the scene, or raises (no display). *)
Variable viewer : list mesh -> exn + unit.

(** [visualize_meshes] (lines 35-43). *)
Definition visualize_meshes (meshes : meshes_arg) (colors : list (list Qc)) (title : string)
    : M unit :=
  let meshes := match meshes with MList xs => xs | MSingle x => [x] end in
  let! scene := load_all (not_none meshes) in
  lift (viewer scene).

Variable centroid : mesh -> V3.
Variable sample : mesh -> nat -> exn + list V3.
Variable icp : list V3 -> list V3 -> Mat4 -> nat -> Qc -> exn + option Mat4.
Variable trimesh_load : string -> exn + pyobj.
Variable concatenate : list mesh -> exn + pyobj.

Definition main_colors : list (list Qc) :=
  [[q 255; q 218; q 185]; [q 100; q 150; q 255; q 150]].

(** The [for] loop of [main] (lines 147-155); [false] when it returned
    early. *)
Fixpoint fit_loop (items : list (loc * string)) (shirt : loc) : M bool :=
  match items with
  | [] => ret true
  | (i, gender) :: items' =>
      let! r := fit_t_shirt centroid sample icp (Some i) (Some shirt) gender in
      let '(fitted_shirt, body) := r in
      match fitted_shirt with
      | None => let! _ := print "Fitting failed" in ret false
      | Some _ =>
          let! _ := visualize_meshes (MList [body; fitted_shirt]) main_colors "Fitting Result" in
          fit_loop items' shirt
      end
  end.

(** [main] (lines 133-157). *)
Definition main : M unit :=
  let! _ := print "Starting virtual try-on" in
  let! female_mesh := load_mesh trimesh_load concatenate "female_body.glb" in
  let! male_mesh := load_mesh trimesh_load concatenate "male_body-2.glb" in
  let! shirt := load_mesh trimesh_load concatenate "normal_t-shirt_animated.glb" in
  match female_mesh, male_mesh, shirt with
  | Some f, Some m, Some sh =>
      let! _ := print "Fitting t-shirt." in
      let! go_on := fit_loop [(f, "female"%string); (m, "male"%string)] sh in
      if go_on then print "Done" else ret tt
  | _, _, _ =>
      let! _ := print "Failed to load required meshes" in ret tt
  end.

End Viewing.

(** ** Concrete collaborators, for evaluation *)

Definition vsum (vs : list V3) : V3 :=
  fold_left (fun a v => mkV3 (vx a + vx v) (vy a + vy v) (vz a + vz v)) vs (mkV3 0 0 0).

Definition mean_centroid (m : mesh) : V3 :=
  let n := Q2Qc (inject_Z (Z.of_nat (length (vertices m)))) in
  let s := vsum (vertices m) in
  mkV3 (vx s / n) (vy s / n) (vz s / n).

Definition sample_vertices (m : mesh) (_ : nat) : exn + list V3 := inr (vertices m).
Definition icp_raises (_ _ : list V3) (_ : Mat4) (_ : nat) (_ : Qc) : exn + option Mat4 :=
  inl (LibError "SVD did not converge").
Definition icp_identity (_ _ : list V3) (_ : Mat4) (_ : nat) (_ : Qc) : exn + option Mat4 :=
  inr (Some eye4).

Definition v (a b c : Q) : V3 := mkV3 (q a) (q b) (q c).

(** A tetrahedron-ish body and a shirt lying in the plane x = 0. *)
Definition body_ex : mesh :=
  mkMesh [v 0 0 0; v 1.8 0 0; v 0 0.9 0; v 0 0 0.5] [(0,1,2); (0,1,3); (0,2,3); (1,2,3)]%nat.
Definition flat_shirt : mesh :=
  mkMesh [v 0 0 0; v 0 1 0; v 0 0 1] [(0,1,2)]%nat.
Definition unit_shirt : mesh :=
  mkMesh [v 0 0 0; v 1 0 0; v 0 1 0; v 0 0 1] [(0,1,2); (0,1,3); (0,2,3); (1,2,3)]%nat.
Definition st0 (ms : list mesh) : state := mkState ms [].

(** ** Helpers for the statements and proofs *)

Definition shift (t p : V3) : V3 := mkV3 (vx p + vx t) (vy p + vy t) (vz p + vz t).
Definition stretch (f p : V3) : V3 := mkV3 (vx f * vx p) (vy f * vy p) (vz f * vz p).

(** The garment [prealign] leaves at the new location. *)
Definition positioned_garment (centroid : mesh -> V3) (bm sm : mesh) (bs ss : V3)
    (gender : string) : mesh :=
  let sf := vmul (vdiv bs ss) (pre_scale_ratios gender) in
  let scaled := apply_transform_mesh (scale_matrix (vx sf) (vy sf) (vz sf)) sm in
  let t := vsub (centroid bm) (centroid scaled) in
  apply_transform_mesh (translation_matrix (vx t) (vy t + vy bs * q 0.1) (vz t)) scaled.

(** What [align_meshes_icp] does to the heap: one deep copy of the source,
    transformed in place when the registration gives a (4, 4) matrix. *)
Definition align_outcome (sample : mesh -> nat -> exn + list V3)
    (icp : list V3 -> list V3 -> Mat4 -> nat -> Qc -> exn + option Mat4)
    (s : state) (tm pm : mesh) (mi : nat) (th : Qc) : (exn + option loc) * state :=
  let failed msg :=
    (inr None, mkState (heap s ++ [pm]) (stdout s ++ [("ICP Error: " ++ msg)%string])) in
  match sample tm 5000 with
  | inl e => (inl e, mkState (heap s ++ [pm]) (stdout s))
  | inr tp =>
      match sample pm 5000 with
      | inl e => (inl e, mkState (heap s ++ [pm]) (stdout s))
      | inr sp =>
          match icp sp tp eye4 mi th with
          | inl e => failed (show_exn e)
          | inr (Some T) =>
              if is_4x4 T
              then (inr (Some (length (heap s))), mkState (heap s ++ [apply_transform_mesh T pm]) (stdout s))
              else failed shape_error
          | inr None => failed shape_error
          end
      end
  end.

(** A non-empty mesh: at least one triangle, every index in range. *)
Definition valid_mesh (m : mesh) : Prop :=
  faces m <> [] /\
  Forall (fun f : nat * nat * nat =>
            let '(a, b, c) := f in
            (a < length (vertices m) /\ b < length (vertices m) /\ c < length (vertices m))%nat)
         (faces m).

Definition post_scale_mesh (gender : string) (m : mesh) : mesh :=
  match post_scale_factors gender with
  | [a; b; c] => apply_transform_mesh (scale_matrix a b c) m
  | _ => m
  end.

Ltac frame_lookup :=
  simpl;
  repeat rewrite list_lookup_insert_ne by (rewrite ?length_app; simpl; lia);
  repeat rewrite lookup_app_l by (rewrite ?length_app; simpl; lia);
  assumption.

Ltac qc_eq := apply Qc_is_canon; vm_compute; reflexivity.
Ltac qc_neq := let H := fresh in intros H; apply (f_equal this) in H; vm_compute in H; discriminate.

Definition extents_or_zero (m : mesh) : V3 :=
  match extents m with Some e => e | None => mkV3 0 0 0 end.

Definition empty_mesh : mesh := mkMesh [] [].

(** A sampler that always raises. *)
Definition sample_refuses (_ : mesh) (_ : nat) : exn + list V3 := inl (LibError "no surface").

(** A viewer that cannot open (no display). *)
Definition viewer_fails (_ : list mesh) : exn + unit := inl (LibError "no display").

(** A viewer that shows anything. *)
Definition viewer_ok (_ : list mesh) : exn + unit := inr tt.

(** [trimesh.load] finding both bodies but not the garment file. *)
Definition load_missing_shirt (path : string) : exn + pyobj :=
  if String.eqb path "normal_t-shirt_animated.glb" then inl (LibError "not found")
  else inr (PTrimesh body_ex).

Definition no_concatenate (_ : list mesh) : exn + pyobj := inl (LibError "no meshes").

(** [body_ex] in millimetres. *)
Definition body_mm : mesh :=
  mkMesh [v 0 0 0; v 1800 0 0; v 0 900 0; v 0 0 500] [(0,1,2); (0,1,3); (0,2,3); (1,2,3)]%nat.

Definition load_body_mm (_ : string) : exn + pyobj := inr (PTrimesh body_mm).

(** A scene holding a camera-like non-mesh node and the body. *)
Definition load_scene (_ : string) : exn + pyobj := inr (PScene [PNoGeometry; PTrimesh body_ex]).

Definition concatenate_first (ms : list mesh) : exn + pyobj :=
  match ms with m :: _ => inr (PTrimesh m) | [] => inr PNoGeometry end.

Definition load_points (_ : string) : exn + pyobj := inr (PGeometryHolder [PNoGeometry]).

(** An ICP result that is a (3, 3) matrix. *)
Definition icp_bad_shape (_ _ : list V3) (_ : Mat4) (_ : nat) (_ : Qc) : exn + option Mat4 :=
  inr (Some [[1; 0; 0]; [0; 1; 0]; [0; 0; 1]]).

(** A computation only appends lines to stdout, each satisfying [ok]. *)
Definition prints_within {A} (ok : string -> Prop) (p : M A) : Prop :=
  forall s, exists out, stdout (snd (p s)) = stdout s ++ out /\ Forall ok out.

(** Every normal result of a computation satisfies [Q]. *)
Definition returns {A} (Q : A -> Prop) (p : M A) : Prop :=
  forall s x s', p s = (inr x, s') -> Q x.

(** ** Lemmas on the model *)

(** *** Monad *)

Lemma bind_inr {A B} (m : M A) (f : A -> M B) s x s' :
  m s = (inr x, s') -> bind m f s = f x s'.
Proof. intros H. unfold bind. rewrite H. reflexivity. Qed.

Lemma bind_inl {A B} (m : M A) (f : A -> M B) s e s' :
  m s = (inl e, s') -> bind m f s = (inl e, s').
Proof. intros H. unfold bind. rewrite H. reflexivity. Qed.

Lemma bind_eq {A B} (m : M A) (f : A -> M B) s r :
  m s = r ->
  bind m f s = match r with (inl e, s') => (inl e, s') | (inr x, s') => f x s' end.
Proof. intros H. unfold bind. rewrite H. reflexivity. Qed.

Lemma load_run s l m : heap s !! l = Some m -> load l s = (inr m, s).
Proof. intros H. unfold load. rewrite H. reflexivity. Qed.

Lemma deepcopy_run s l m :
  heap s !! l = Some m ->
  deepcopy l s = (inr (length (heap s)), mkState (heap s ++ [m]) (stdout s)).
Proof. intros H. unfold deepcopy. erewrite bind_inr by (apply load_run; exact H). reflexivity. Qed.

Lemma apply_transform_run s l Mx m :
  is_4x4 Mx = true -> heap s !! l = Some m ->
  apply_transform l Mx s = (inr tt, mkState (<[l := apply_transform_mesh Mx m]> (heap s)) (stdout s)).
Proof.
  intros H4 H. unfold apply_transform. rewrite H4.
  erewrite bind_inr by (apply load_run; exact H). reflexivity.
Qed.

Lemma insert_last (h : list mesh) (x y : mesh) :
  <[length h := x]> (h ++ [y]) = h ++ [x].
Proof. induction h as [|z h IH]; simpl; [reflexivity | now rewrite IH]. Qed.

Lemma lookup_last (h : list mesh) (x : mesh) : (h ++ [x]) !! length h = Some x.
Proof. rewrite lookup_app_r by lia. now rewrite Nat.sub_diag. Qed.

Lemma lookup_app_live (h : list mesh) (x : mesh) l m :
  h !! l = Some m -> (h ++ [x]) !! l = Some m.
Proof. intros H. rewrite lookup_app_l; [exact H|]. apply lookup_lt_Some in H. exact H. Qed.

(** *** Rational arithmetic *)

Lemma Qcompare_plus_r (x y a : Q) : ((x + a) ?= (y + a))%Q = (x ?= y)%Q.
Proof.
  destruct (Qcompare_spec x y) as [H|H|H].
  - apply Qeq_alt. rewrite H. reflexivity.
  - apply Qlt_alt. apply Qplus_lt_l. exact H.
  - apply Qgt_alt. apply Qplus_lt_l. exact H.
Qed.

Lemma Qccompare_plus_r (x y a : Qc) : (x + a ?= y + a) = (x ?= y).
Proof.
  unfold Qccompare, Qcplus, Q2Qc. simpl.
  rewrite (Qcompare_comp _ _ (Qred_correct (x + a)%Q) _ _ (Qred_correct (y + a)%Q)).
  apply Qcompare_plus_r.
Qed.

Lemma qmax_plus (x y a : Qc) : qmax (x + a) (y + a) = qmax x y + a.
Proof. unfold qmax. rewrite Qccompare_plus_r. now destruct (x ?= y). Qed.

Lemma qmin_plus (x y a : Qc) : qmin (x + a) (y + a) = qmin x y + a.
Proof. unfold qmin. rewrite Qccompare_plus_r. now destruct (x ?= y). Qed.

(** *** Transforms *)

Lemma transform_translation a b c p :
  transform_point (translation_matrix a b c) p = shift (mkV3 a b c) p.
Proof. destruct p. unfold transform_point, row_apply, shift; simpl. f_equal; ring. Qed.

Lemma transform_scale a b c p :
  transform_point (scale_matrix a b c) p = stretch (mkV3 a b c) p.
Proof. destruct p. unfold transform_point, row_apply, stretch; simpl. f_equal; ring. Qed.

Lemma det3_translation a b c : det3 (translation_matrix a b c) = 1.
Proof. unfold det3, entry; simpl. ring. Qed.

Lemma det3_scale a b c : det3 (scale_matrix a b c) = a * b * c.
Proof. unfold det3, entry; simpl. ring. Qed.

Lemma translate_mesh_faces a b c m :
  apply_transform_mesh (translation_matrix a b c) m
  = mkMesh (map (shift (mkV3 a b c)) (vertices m)) (faces m).
Proof.
  unfold apply_transform_mesh. rewrite det3_translation.
  f_equal. apply map_ext. apply transform_translation.
Qed.

Lemma scale_mesh_vertices a b c m :
  vertices (apply_transform_mesh (scale_matrix a b c) m)
  = map (stretch (mkV3 a b c)) (vertices m).
Proof. simpl. apply map_ext. apply transform_scale. Qed.

Lemma identity_transform_mesh m : apply_transform_mesh (scale_matrix 1 1 1) m = m.
Proof.
  destruct m as [vs fs]. unfold apply_transform_mesh. rewrite det3_scale. simpl.
  f_equal. rewrite <- (map_id vs) at 2. apply map_ext. intros p.
  rewrite transform_scale. destruct p; unfold stretch; simpl. f_equal; ring.
Qed.

(** *** Extents *)

Lemma referenced_from_map f i vs fs :
  referenced_from i (map f vs) fs = map f (referenced_from i vs fs).
Proof.
  revert i. induction vs as [|w vs IH]; intros i; simpl; [reflexivity|].
  destruct (existsb (face_mentions i) fs); simpl; now rewrite IH.
Qed.

Lemma vmax_shift t a b : vmax (shift t a) (shift t b) = shift t (vmax a b).
Proof. unfold vmax, shift; simpl. now rewrite !qmax_plus. Qed.

Lemma vmin_shift t a b : vmin (shift t a) (shift t b) = shift t (vmin a b).
Proof. unfold vmin, shift; simpl. now rewrite !qmin_plus. Qed.

Lemma fold_vmax_shift t vs w :
  fold_left vmax (map (shift t) vs) (shift t w) = shift t (fold_left vmax vs w).
Proof.
  revert w. induction vs as [|u vs IH]; intros w; simpl; [reflexivity|].
  rewrite vmax_shift. apply IH.
Qed.

Lemma fold_vmin_shift t vs w :
  fold_left vmin (map (shift t) vs) (shift t w) = shift t (fold_left vmin vs w).
Proof.
  revert w. induction vs as [|u vs IH]; intros w; simpl; [reflexivity|].
  rewrite vmin_shift. apply IH.
Qed.

Lemma vsub_shift t a b : vsub (shift t a) (shift t b) = vsub a b.
Proof. unfold vsub, shift; simpl. f_equal; ring. Qed.

Lemma extents_shift t m :
  extents (mkMesh (map (shift t) (vertices m)) (faces m)) = extents m.
Proof.
  unfold extents, referenced; simpl. rewrite referenced_from_map.
  destruct (referenced_from 0 (vertices m) (faces m)) as [|w vs]; simpl; [reflexivity|].
  now rewrite fold_vmax_shift, fold_vmin_shift, vsub_shift.
Qed.

(** ** GeometryOps claims *)

(** C7 (as amended): [scale_mesh] on a live mesh returns [None] and
    leaves the state untouched unless the factors are a [list] or 1-d
    [np.ndarray] of exactly three numbers (a 3-tuple is rejected too); for
    such a list or array (any sign, zero included) it multiplies every
    vertex coordinate componentwise by the factors, in place, and returns
    the mesh. *)
Theorem scale_mesh_factors (s : state) (l : loc) (m : mesh) (f : pyvec) :
  heap s !! l = Some m ->
  ((match f with PySeq [_; _; _] => False | _ => True end) ->
     scale_mesh (Some l) f s = (inr None, s)) /\
  (forall a b c : Qc, f = PySeq [a; b; c] ->
     exists m' : mesh,
       scale_mesh (Some l) f s = (inr (Some l), mkState (<[l := m']> (heap s)) (stdout s)) /\
       vertices m' = map (fun p => mkV3 (a * vx p) (b * vy p) (c * vz p)) (vertices m)).
Proof.
  intros Hl. split.
  - intros Hf. destruct f as [xs|xs|]; [|reflexivity|reflexivity].
    destruct xs as [|x0 [|x1 [|x2 [|x3 xs]]]]; try reflexivity. contradiction.
  - intros a b c ->. exists (apply_transform_mesh (scale_matrix a b c) m). split.
    + unfold scale_mesh. erewrite bind_inr by (apply apply_transform_run; [reflexivity | exact Hl]).
      reflexivity.
    + apply scale_mesh_vertices.
Qed.

Lemma scale_mesh_factors_witness :
  heap (st0 [unit_shirt]) !! 0%nat = Some unit_shirt /\
  ((match PySeq [q 2; 0; q (-3)] with PySeq [_; _; _] => False | _ => True end) ->
     scale_mesh (Some 0%nat) (PySeq [q 2; 0; q (-3)]) (st0 [unit_shirt]) = (inr None, st0 [unit_shirt])) /\
  (forall a b c : Qc, PySeq [q 2; 0; q (-3)] = PySeq [a; b; c] ->
     exists m' : mesh,
       scale_mesh (Some 0%nat) (PySeq [q 2; 0; q (-3)]) (st0 [unit_shirt])
         = (inr (Some 0%nat), mkState (<[0%nat := m']> (heap (st0 [unit_shirt]))) (stdout (st0 [unit_shirt]))) /\
       vertices m' = map (fun p => mkV3 (a * vx p) (b * vy p) (c * vz p)) (vertices unit_shirt)).
Proof.
  split; [reflexivity|].
  apply (scale_mesh_factors (st0 [unit_shirt]) 0%nat unit_shirt (PySeq [q 2; 0; q (-3)])).
  reflexivity.
Defined.

(** C7, counterexample: a factor vector with three components given as
    the tuple [(2, 2, 2)] is not scaled by: [scale_mesh] returns [None]
    and the mesh keeps its vertex positions (the state is unchanged). *)
Lemma scale_mesh_tuple_counterexample :
  scale_mesh (Some 0%nat) (PyTuple [q 2; q 2; q 2]) (st0 [unit_shirt]) = (inr None, st0 [unit_shirt]).
Proof. reflexivity. Qed.

(** C8: scaling a live mesh by [[1, 1, 1]] returns it and leaves the whole
    state, hence every vertex position, unchanged. *)
Theorem scale_mesh_identity (s : state) (l : loc) (m : mesh) :
  heap s !! l = Some m ->
  scale_mesh (Some l) (PySeq [1; 1; 1]) s = (inr (Some l), s).
Proof.
  intros Hl. unfold scale_mesh.
  erewrite bind_inr by (apply apply_transform_run; [reflexivity | exact Hl]).
  rewrite identity_transform_mesh, list_insert_id by exact Hl.
  destruct s; reflexivity.
Qed.

Lemma scale_mesh_identity_witness :
  heap (st0 [body_ex]) !! 0%nat = Some body_ex /\
  scale_mesh (Some 0%nat) (PySeq [1; 1; 1]) (st0 [body_ex]) = (inr (Some 0%nat), st0 [body_ex]).
Proof.
  split; [reflexivity|].
  apply (scale_mesh_identity (st0 [body_ex]) 0%nat body_ex). reflexivity.
Defined.

(** C9: translating a live mesh by any 3-vector leaves its extents
    unchanged. *)
Theorem translate_mesh_extents (s : state) (l : loc) (m : mesh) (a b c : Qc) :
  heap s !! l = Some m ->
  exists m' : mesh,
    translate_mesh (Some l) (PySeq [a; b; c]) s
      = (inr (Some l), mkState (<[l := m']> (heap s)) (stdout s)) /\
    extents m' = extents m.
Proof.
  intros Hl. exists (apply_transform_mesh (translation_matrix a b c) m). split.
  - unfold translate_mesh.
    erewrite bind_inr by (apply apply_transform_run; [reflexivity | exact Hl]).
    reflexivity.
  - rewrite translate_mesh_faces. apply extents_shift.
Qed.

Lemma translate_mesh_extents_witness :
  heap (st0 [body_ex]) !! 0%nat = Some body_ex /\
  exists m' : mesh,
    translate_mesh (Some 0%nat) (PySeq [q 3; q (-1); q 0.25]) (st0 [body_ex])
      = (inr (Some 0%nat), mkState (<[0%nat := m']> (heap (st0 [body_ex]))) (stdout (st0 [body_ex]))) /\
    extents m' = extents body_ex.
Proof.
  split; [reflexivity|].
  apply (translate_mesh_extents (st0 [body_ex]) 0%nat body_ex (q 3) (q (-1)) (q 0.25)).
  reflexivity.
Defined.

(** ** Running the pipeline *)

Lemma scale_mesh_run s l m a b c :
  heap s !! l = Some m ->
  scale_mesh (Some l) (PySeq [a; b; c]) s
  = (inr (Some l), mkState (<[l := apply_transform_mesh (scale_matrix a b c) m]> (heap s)) (stdout s)).
Proof.
  intros Hl. unfold scale_mesh.
  erewrite bind_inr by (apply apply_transform_run; [reflexivity | exact Hl]). reflexivity.
Qed.

Lemma prealign_run centroid s b sl bm sm bs ss gender :
  heap s !! b = Some bm -> heap s !! sl = Some sm ->
  extents bm = Some bs -> extents sm = Some ss ->
  prealign centroid b sl gender s
  = (inr (Some (length (heap s))),
     mkState (heap s ++ [positioned_garment centroid bm sm bs ss gender]) (stdout s)).
Proof.
  intros Hb Hs Ebs Ess. unfold prealign.
  erewrite bind_inr by (apply load_run; exact Hb).
  erewrite bind_inr by (apply load_run; exact Hs).
  rewrite Ebs, Ess.
  erewrite bind_inr by (apply deepcopy_run; exact Hs).
  erewrite bind_inr by (apply scale_mesh_run; simpl; apply lookup_last).
  simpl. rewrite insert_last.
  erewrite bind_inr by (apply load_run; simpl; apply lookup_app_live; exact Hb).
  erewrite bind_inr by (apply load_run; simpl; apply lookup_last).
  erewrite bind_inr by (apply apply_transform_run; [reflexivity | simpl; apply lookup_last]).
  simpl. rewrite insert_last. reflexivity.
Qed.

Lemma prealign_empty centroid s b sl bm sm gender :
  heap s !! b = Some bm -> heap s !! sl = Some sm ->
  (extents bm = None \/ extents sm = None) ->
  prealign centroid b sl gender s = (inl TypeError, s).
Proof.
  intros Hb Hs He. unfold prealign.
  erewrite bind_inr by (apply load_run; exact Hb).
  erewrite bind_inr by (apply load_run; exact Hs).
  destruct He as [-> | ->]; [reflexivity|]. now destruct (extents bm).
Qed.

Lemma align_run sample icp s t p tm pm mi th :
  heap s !! t = Some tm -> heap s !! p = Some pm ->
  align_meshes_icp sample icp (Some t) (Some p) mi th s = align_outcome sample icp s tm pm mi th.
Proof.
  intros Ht Hp. unfold align_meshes_icp, align_outcome.
  erewrite bind_inr by (apply deepcopy_run; exact Hp).
  erewrite bind_inr by (apply load_run; simpl; apply lookup_app_live; exact Ht).
  destruct (sample tm 5000) as [e|tp].
  { apply bind_inl. reflexivity. }
  erewrite bind_inr by reflexivity.
  erewrite bind_inr by (apply load_run; simpl; apply lookup_last).
  destruct (sample pm 5000) as [e|sp].
  { apply bind_inl. reflexivity. }
  erewrite bind_inr by reflexivity.
  unfold try_except, bind, lift, raise.
  destruct (icp sp tp eye4 mi th) as [e|[T|]]; try reflexivity.
  unfold apply_transform. destruct (is_4x4 T); [|reflexivity].
  unfold load, store, bind. simpl. rewrite lookup_last. simpl. now rewrite insert_last.
Qed.

(** *** Valid and empty meshes *)

Lemma referenced_from_nil i vs fs :
  referenced_from i vs fs = [] ->
  forall k, (k < length vs)%nat -> existsb (face_mentions (i + k)) fs = false.
Proof.
  revert i. induction vs as [|w vs IH]; intros i H k Hk; simpl in *; [lia|].
  destruct (existsb (face_mentions i) fs) eqn:E; [discriminate|].
  destruct k as [|k]; [now rewrite Nat.add_0_r|].
  rewrite <- Nat.add_succ_comm. apply IH; [exact H | lia].
Qed.

Lemma valid_extents m : valid_mesh m -> exists e, extents m = Some e.
Proof.
  intros [Hne Hall]. unfold extents.
  destruct (referenced m) as [|w vs] eqn:E; [|eauto].
  exfalso. destruct (faces m) as [|[[a b] c] fs] eqn:Ef; [contradiction|].
  try rewrite Ef in Hall.
  inversion Hall as [|? ? Hx _]; subst. simpl in Hx. destruct Hx as [Ha _].
  pose proof (referenced_from_nil 0 (vertices m) (faces m) E a Ha) as Hf.
  rewrite Ef in Hf. simpl in Hf. rewrite Nat.eqb_refl in Hf. discriminate.
Qed.

Lemma referenced_from_no_faces i vs : referenced_from i vs [] = [].
Proof. revert i. induction vs as [|w vs IH]; intros i; simpl; [reflexivity | apply IH]. Qed.

Lemma no_faces_extents m : faces m = [] -> extents m = None.
Proof. intros H. unfold extents, referenced. now rewrite H, referenced_from_no_faces. Qed.

(** ** FittingPipeline claims *)

(** C3: for live, non-empty body and garment, when surface sampling
    succeeds and the ICP call raises or returns no transform,
    [fit_t_shirt] still returns a fitted garment: the very object
    positioned by lines 108-120 (before ICP), with only the post-scale
    applied; the body is the second result. *)
Theorem fit_t_shirt_icp_failure centroid sample icp (s : state) (b sl : loc)
    (bm sm : mesh) (gender : string) (a0 a1 a2 : Qc) :
  heap s !! b = Some bm -> heap s !! sl = Some sm ->
  valid_mesh bm -> valid_mesh sm ->
  (forall m k, exists pts, sample m k = inr pts) ->
  (forall src tgt init mi th,
     match icp src tgt init mi th with inr (Some _) => False | _ => True end) ->
  post_scale_factors gender = [a0; a1; a2] ->
  exists (s1 : state) (positioned : mesh) (s' : state),
    prealign centroid b sl gender s = (inr (Some (length (heap s))), s1) /\
    heap s1 !! length (heap s) = Some positioned /\
    fit_t_shirt centroid sample icp (Some b) (Some sl) gender s
      = (inr (Some (length (heap s)), Some b), s') /\
    heap s' !! length (heap s) = Some (apply_transform_mesh (scale_matrix a0 a1 a2) positioned).
Proof.
  intros Hb Hs Vb Vs Hsample Hicp Hpost.
  destruct (valid_extents bm Vb) as [bs Ebs], (valid_extents sm Vs) as [ss Ess].
  set (P := positioned_garment centroid bm sm bs ss gender).
  pose proof (prealign_run centroid s b sl bm sm bs ss gender Hb Hs Ebs Ess) as Hpre.
  destruct (Hsample bm 5000%nat) as [tp Etp], (Hsample P 5000%nat) as [sp Esp].
  specialize (Hicp sp tp eye4 100%nat (q 0.01)).
  destruct (icp sp tp eye4 100 (q 0.01)) as [e|[T|]] eqn:Ei; [| contradiction |];
    eexists _, P, _; (split; [exact Hpre|]); (split; [simpl; apply lookup_last|]);
    unfold fit_t_shirt; erewrite bind_inr by exact Hpre;
    (erewrite bind_eq
       by (apply align_run with (tm := bm) (pm := P);
           simpl; first [apply lookup_last | apply lookup_app_live; exact Hb]));
    unfold align_outcome; rewrite Etp, Esp, Ei; cbn [bind ret print fst snd heap stdout];
    rewrite Hpost;
    (erewrite bind_inr by (apply scale_mesh_run; simpl; apply lookup_app_live, lookup_last));
    (split; [reflexivity|]); simpl;
    apply list_lookup_insert_eq; rewrite !length_app; simpl; lia.
Qed.

Lemma fit_t_shirt_icp_failure_witness :
  exists (s1 : state) (positioned : mesh) (s' : state),
    prealign mean_centroid 0%nat 1%nat "male" (st0 [body_ex; unit_shirt])
      = (inr (Some (length (heap (st0 [body_ex; unit_shirt])))), s1) /\
    heap s1 !! length (heap (st0 [body_ex; unit_shirt])) = Some positioned /\
    fit_t_shirt mean_centroid sample_vertices icp_raises (Some 0%nat) (Some 1%nat) "male"
      (st0 [body_ex; unit_shirt])
      = (inr (Some (length (heap (st0 [body_ex; unit_shirt]))), Some 0%nat), s') /\
    heap s' !! length (heap (st0 [body_ex; unit_shirt]))
      = Some (apply_transform_mesh (scale_matrix 1 (q 1.04) (q 1.3)) positioned).
Proof.
  apply (fit_t_shirt_icp_failure mean_centroid sample_vertices icp_raises
           (st0 [body_ex; unit_shirt]) 0%nat 1%nat body_ex unit_shirt "male" 1 (q 1.04) (q 1.3)).
  - reflexivity.
  - reflexivity.
  - split; [discriminate|]. repeat (constructor; [simpl; lia|]). constructor.
  - split; [discriminate|]. repeat (constructor; [simpl; lia|]). constructor.
  - intros m k. eexists. reflexivity.
  - intros. simpl. exact I.
  - reflexivity.
Defined.

Lemma post_scale_run s k m gender :
  heap s !! k = Some m ->
  scale_mesh (Some k) (PySeq (post_scale_factors gender)) s
  = (inr (Some k), mkState (<[k := post_scale_mesh gender m]> (heap s)) (stdout s)).
Proof.
  intros Hk. unfold post_scale_mesh, post_scale_factors.
  destruct (String.eqb gender "female"); apply scale_mesh_run; exact Hk.
Qed.

(** C4 (as amended): for live body and garment objects, after
    [fit_t_shirt] returns or raises, the caller's garment and body objects
    are unchanged (the pipeline works on deep copies); whenever it returns
    a fitted mesh, that mesh is a fresh object and the second result is
    the body itself. *)
Theorem fit_t_shirt_frame centroid sample icp (s : state) (b sl : loc)
    (bm sm : mesh) (gender : string) :
  heap s !! b = Some bm -> heap s !! sl = Some sm ->
  heap (snd (fit_t_shirt centroid sample icp (Some b) (Some sl) gender s)) !! sl = Some sm /\
  heap (snd (fit_t_shirt centroid sample icp (Some b) (Some sl) gender s)) !! b = Some bm /\
  (forall (f : loc) (body' : option loc),
     fst (fit_t_shirt centroid sample icp (Some b) (Some sl) gender s) = inr (Some f, body') ->
     body' = Some b /\ (length (heap s) <= f)%nat).
Proof.
  intros Hb Hs.
  pose proof (lookup_lt_Some _ _ _ Hb) as Lb.
  pose proof (lookup_lt_Some _ _ _ Hs) as Ls.
  unfold fit_t_shirt.
  destruct (extents bm) as [bs|] eqn:Eb; [destruct (extents sm) as [ss|] eqn:Es|].
  2, 3: erewrite bind_inl by (apply prealign_empty with (bm := bm) (sm := sm); auto);
        simpl; split; [|split]; [assumption | assumption | discriminate].
  set (P := positioned_garment centroid bm sm bs ss gender).
  erewrite bind_inr by (apply prealign_run; eauto).
  erewrite bind_eq
    by (apply align_run with (tm := bm) (pm := P); simpl;
        first [apply lookup_last | apply lookup_app_live; exact Hb]).
  unfold align_outcome.
  destruct (sample bm 5000) as [e|tp];
    [simpl; split; [|split]; [frame_lookup | frame_lookup | discriminate]|].
  destruct (sample P 5000) as [e|sp];
    [simpl; split; [|split]; [frame_lookup | frame_lookup | discriminate]|].
  destruct (icp sp tp eye4 100 (q 0.01)) as [e|[T|]]; [| destruct (is_4x4 T) |];
    cbn [bind ret print fst snd heap stdout].
  all: erewrite bind_inr
         by (apply post_scale_run; first [apply lookup_app_live, lookup_last | apply lookup_last]).
  all: cbn [ret fst snd heap]; split; [|split]; [frame_lookup | frame_lookup |].
  all: intros f body' H; inversion H; subst; split; [reflexivity | rewrite ?length_app; simpl; lia].
Qed.

Lemma fit_t_shirt_frame_witness :
  heap (snd (fit_t_shirt mean_centroid sample_vertices icp_identity (Some 0%nat) (Some 1%nat) "female"
               (st0 [body_ex; unit_shirt]))) !! 1%nat = Some unit_shirt /\
  heap (snd (fit_t_shirt mean_centroid sample_vertices icp_identity (Some 0%nat) (Some 1%nat) "female"
               (st0 [body_ex; unit_shirt]))) !! 0%nat = Some body_ex /\
  (forall (f : loc) (body' : option loc),
     fst (fit_t_shirt mean_centroid sample_vertices icp_identity (Some 0%nat) (Some 1%nat) "female"
            (st0 [body_ex; unit_shirt])) = inr (Some f, body') ->
     body' = Some 0%nat /\ (length (heap (st0 [body_ex; unit_shirt])) <= f)%nat).
Proof.
  apply (fit_t_shirt_frame mean_centroid sample_vertices icp_identity
           (st0 [body_ex; unit_shirt]) 0%nat 1%nat body_ex unit_shirt "female");
    reflexivity.
Defined.

(** C4, counterexample: with a live body and a [None] garment the call
    returns [(None, None)]: the body is not the second result. *)
Lemma fit_t_shirt_frame_counterexample :
  fst (fit_t_shirt mean_centroid sample_vertices icp_identity (Some 0%nat) None "male"
         (st0 [body_ex])) = inr (None, None).
Proof. reflexivity. Qed.

(** *** Equalities of concrete rationals *)

(** C1 (as amended): [fit_t_shirt] has no zero-extent guard.  For live
    body and garment with extents (a garment with a zero extent component
    included), whenever surface sampling does not raise it returns a
    fitted mesh and the body, whatever the ICP call does. *)
Theorem fit_t_shirt_no_extent_guard centroid sample icp (s : state) (b sl : loc)
    (bm sm : mesh) (bs ss : V3) (gender : string) :
  heap s !! b = Some bm -> heap s !! sl = Some sm ->
  extents bm = Some bs -> extents sm = Some ss ->
  (forall m k, exists pts, sample m k = inr pts) ->
  exists (f : loc) (s' : state),
    fit_t_shirt centroid sample icp (Some b) (Some sl) gender s = (inr (Some f, Some b), s').
Proof.
  intros Hb Hs Eb Es Hsample. unfold fit_t_shirt.
  set (P := positioned_garment centroid bm sm bs ss gender).
  erewrite bind_inr by (apply prealign_run; eauto).
  erewrite bind_eq
    by (apply align_run with (tm := bm) (pm := P); simpl;
        first [apply lookup_last | apply lookup_app_live; exact Hb]).
  unfold align_outcome.
  destruct (Hsample bm 5000%nat) as [tp ->], (Hsample P 5000%nat) as [sp ->].
  destruct (icp sp tp eye4 100 (q 0.01)) as [e|[T|]]; [| destruct (is_4x4 T) |];
    cbn [bind ret print fst snd heap stdout].
  all: erewrite bind_inr
         by (apply post_scale_run; first [apply lookup_app_live, lookup_last | apply lookup_last]).
  all: eexists _, _; reflexivity.
Qed.

Lemma fit_t_shirt_no_extent_guard_witness :
  exists (f : loc) (s' : state),
    fit_t_shirt mean_centroid sample_vertices icp_raises (Some 0%nat) (Some 1%nat) "male"
      (st0 [body_ex; flat_shirt]) = (inr (Some f, Some 0%nat), s').
Proof.
  apply (fit_t_shirt_no_extent_guard mean_centroid sample_vertices icp_raises
           (st0 [body_ex; flat_shirt]) 0%nat 1%nat body_ex flat_shirt
           (extents_or_zero body_ex) (extents_or_zero flat_shirt) "male");
    try reflexivity.
  intros m k. eexists. reflexivity.
Defined.

(** C1, counterexample: a garment whose x extent is zero; the call
    returns a fitted mesh (location 2) with the body, no error. *)
Lemma fit_t_shirt_zero_extent_counterexample :
  (exists e, extents flat_shirt = Some e /\ vx e = 0) /\
  fst (fit_t_shirt mean_centroid sample_vertices icp_raises (Some 0%nat) (Some 1%nat) "male"
         (st0 [body_ex; flat_shirt])) = inr (Some 2%nat, Some 0%nat).
Proof.
  split.
  - eexists. split; [reflexivity | qc_eq].
  - vm_compute. reflexivity.
Qed.

(** C2 (as amended): a [None] body or garment makes [fit_t_shirt] return
    [(None, None)] without raising and without touching the state; a live
    mesh with no triangles is not checked: the extents division raises a
    [TypeError] before any transform, again with the state untouched. *)
Theorem fit_t_shirt_invalid_input centroid sample icp (s : state)
    (body shirt : option loc) (gender : string) :
  ((body = None \/ shirt = None) ->
     fit_t_shirt centroid sample icp body shirt gender s = (inr (None, None), s)) /\
  (forall (b sl : loc) (bm sm : mesh),
     body = Some b -> shirt = Some sl ->
     heap s !! b = Some bm -> heap s !! sl = Some sm ->
     (faces bm = [] \/ faces sm = []) ->
     fit_t_shirt centroid sample icp body shirt gender s = (inl TypeError, s)).
Proof.
  split.
  - intros [-> | ->]; [reflexivity | now destruct body].
  - intros b sl bm sm -> -> Hb Hs He. unfold fit_t_shirt.
    apply bind_inl, prealign_empty with (bm := bm) (sm := sm); [exact Hb | exact Hs |].
    destruct He as [He | He]; [left | right]; now apply no_faces_extents.
Qed.

Lemma fit_t_shirt_invalid_input_witness :
  ((Some 0%nat = None \/ (None : option loc) = None) ->
     fit_t_shirt mean_centroid sample_vertices icp_identity (Some 0%nat) None "male"
       (st0 [body_ex; empty_mesh]) = (inr (None, None), st0 [body_ex; empty_mesh])) /\
  (forall (b sl : loc) (bm sm : mesh),
     Some 0%nat = Some b -> (None : option loc) = Some sl ->
     heap (st0 [body_ex; empty_mesh]) !! b = Some bm ->
     heap (st0 [body_ex; empty_mesh]) !! sl = Some sm ->
     (faces bm = [] \/ faces sm = []) ->
     fit_t_shirt mean_centroid sample_vertices icp_identity (Some 0%nat) None "male"
       (st0 [body_ex; empty_mesh]) = (inl TypeError, st0 [body_ex; empty_mesh])).
Proof.
  apply (fit_t_shirt_invalid_input mean_centroid sample_vertices icp_identity
           (st0 [body_ex; empty_mesh]) (Some 0%nat) None "male").
Defined.

(** C2, counterexample: a [None] garment is not a failure, the call
    returns normally; an empty garment raises [TypeError]. *)
Lemma fit_t_shirt_invalid_input_counterexample :
  fit_t_shirt mean_centroid sample_vertices icp_identity (Some 0%nat) None "male"
    (st0 [body_ex]) = (inr (None, None), st0 [body_ex]) /\
  fst (fit_t_shirt mean_centroid sample_vertices icp_identity (Some 0%nat) (Some 1%nat) "male"
         (st0 [body_ex; empty_mesh])) = inl TypeError.
Proof. split; reflexivity. Qed.

(** C5: the deep copy of the garment is scaled by
    [body_extents / garment_extents * pre_scale_ratios], componentwise;
    with body extents [[1.8, 0.9, 0.5]], garment extents [[1, 1, 1]] and
    the male ratios, the factors are [[1.422, 0.387, 0.625]]. *)
Theorem prealign_scale_factors centroid (s : state) (b sl : loc) (bm sm : mesh)
    (bs ss : V3) (gender : string) :
  heap s !! b = Some bm -> heap s !! sl = Some sm ->
  extents bm = Some bs -> extents sm = Some ss ->
  vx ss <> 0 -> vy ss <> 0 -> vz ss <> 0 ->
  (exists (scaled : mesh) (t : V3) (s' : state),
     prealign centroid b sl gender s = (inr (Some (length (heap s))), s') /\
     heap s' !! length (heap s)
       = Some (apply_transform_mesh (translation_matrix (vx t) (vy t) (vz t)) scaled) /\
     vertices scaled
       = map (fun p => mkV3 (vx bs / vx ss * vx (pre_scale_ratios gender) * vx p)
                            (vy bs / vy ss * vy (pre_scale_ratios gender) * vy p)
                            (vz bs / vz ss * vz (pre_scale_ratios gender) * vz p))
             (vertices sm)) /\
  pre_scale_ratios "male" = v 0.79 0.43 1.25 /\
  vmul (vdiv (v 1.8 0.9 0.5) (v 1 1 1)) (pre_scale_ratios "male") = v 1.422 0.387 0.625.
Proof.
  intros Hb Hs Eb Es _ _ _. split; [|split].
  - set (sf := vmul (vdiv bs ss) (pre_scale_ratios gender)).
    set (scaled := apply_transform_mesh (scale_matrix (vx sf) (vy sf) (vz sf)) sm).
    set (t := vsub (centroid bm) (centroid scaled)).
    exists scaled, (mkV3 (vx t) (vy t + vy bs * q 0.1) (vz t)).
    eexists.
    split; [apply prealign_run; eauto|]. split; [apply lookup_last|].
    apply scale_mesh_vertices.
  - unfold pre_scale_ratios, v. simpl. reflexivity.
  - unfold vmul, vdiv, v. simpl. f_equal; qc_eq.
Qed.

Lemma prealign_scale_factors_witness :
  (exists (scaled : mesh) (t : V3) (s' : state),
     prealign mean_centroid 0%nat 1%nat "male" (st0 [body_ex; unit_shirt])
       = (inr (Some (length (heap (st0 [body_ex; unit_shirt])))), s') /\
     heap s' !! length (heap (st0 [body_ex; unit_shirt]))
       = Some (apply_transform_mesh (translation_matrix (vx t) (vy t) (vz t)) scaled) /\
     vertices scaled
       = map (fun p => mkV3 (vx (extents_or_zero body_ex) / vx (extents_or_zero unit_shirt)
                               * vx (pre_scale_ratios "male") * vx p)
                            (vy (extents_or_zero body_ex) / vy (extents_or_zero unit_shirt)
                               * vy (pre_scale_ratios "male") * vy p)
                            (vz (extents_or_zero body_ex) / vz (extents_or_zero unit_shirt)
                               * vz (pre_scale_ratios "male") * vz p))
             (vertices unit_shirt)) /\
  pre_scale_ratios "male" = v 0.79 0.43 1.25 /\
  vmul (vdiv (v 1.8 0.9 0.5) (v 1 1 1)) (pre_scale_ratios "male") = v 1.422 0.387 0.625.
Proof.
  apply (prealign_scale_factors mean_centroid (st0 [body_ex; unit_shirt]) 0%nat 1%nat
           body_ex unit_shirt (extents_or_zero body_ex) (extents_or_zero unit_shirt) "male");
    first [reflexivity | qc_neq].
Defined.

(** C6: the scaled garment is moved by
    [centroid(body) - centroid(scaled garment)], with [0.1 * body y extent]
    added to the y component: every vertex of the scaled copy is shifted by
    that vector, faces kept. *)
Theorem prealign_translation centroid (s : state) (b sl : loc) (bm sm : mesh)
    (bs ss : V3) (gender : string) :
  heap s !! b = Some bm -> heap s !! sl = Some sm ->
  extents bm = Some bs -> extents sm = Some ss ->
  exists (scaled : mesh) (s' : state),
    scaled = apply_transform_mesh
               (scale_matrix (vx bs / vx ss * vx (pre_scale_ratios gender))
                             (vy bs / vy ss * vy (pre_scale_ratios gender))
                             (vz bs / vz ss * vz (pre_scale_ratios gender))) sm /\
    prealign centroid b sl gender s = (inr (Some (length (heap s))), s') /\
    heap s' !! length (heap s)
      = Some (mkMesh
                (map (fun p =>
                        mkV3 (vx p + (vx (centroid bm) - vx (centroid scaled)))
                             (vy p + (vy (centroid bm) - vy (centroid scaled) + q 0.1 * vy bs))
                             (vz p + (vz (centroid bm) - vz (centroid scaled))))
                     (vertices scaled))
                (faces scaled)).
Proof.
  intros Hb Hs Eb Es. eexists _, _. split; [reflexivity|].
  split; [apply prealign_run; eauto|].
  simpl. rewrite lookup_last. unfold positioned_garment.
  rewrite translate_mesh_faces. do 2 f_equal.
  apply map_ext. intros p. unfold shift. simpl. f_equal. ring.
Qed.

Lemma prealign_translation_witness :
  exists (scaled : mesh) (s' : state),
    scaled = apply_transform_mesh
               (scale_matrix (vx (extents_or_zero body_ex) / vx (extents_or_zero unit_shirt)
                                * vx (pre_scale_ratios "female"))
                             (vy (extents_or_zero body_ex) / vy (extents_or_zero unit_shirt)
                                * vy (pre_scale_ratios "female"))
                             (vz (extents_or_zero body_ex) / vz (extents_or_zero unit_shirt)
                                * vz (pre_scale_ratios "female"))) unit_shirt /\
    prealign mean_centroid 0%nat 1%nat "female" (st0 [body_ex; unit_shirt])
      = (inr (Some (length (heap (st0 [body_ex; unit_shirt])))), s') /\
    heap s' !! length (heap (st0 [body_ex; unit_shirt]))
      = Some (mkMesh
                (map (fun p =>
                        mkV3 (vx p + (vx (mean_centroid body_ex) - vx (mean_centroid scaled)))
                             (vy p + (vy (mean_centroid body_ex) - vy (mean_centroid scaled)
                                      + q 0.1 * vy (extents_or_zero body_ex)))
                             (vz p + (vz (mean_centroid body_ex) - vz (mean_centroid scaled))))
                     (vertices scaled))
                (faces scaled)).
Proof.
  apply (prealign_translation mean_centroid (st0 [body_ex; unit_shirt]) 0%nat 1%nat
           body_ex unit_shirt (extents_or_zero body_ex) (extents_or_zero unit_shirt) "female");
    reflexivity.
Defined.

(** C10: any gender other than the exact string ["female"] selects the
    male constants, and the whole pipeline then behaves exactly as for
    ["male"]: no unknown-profile error exists. *)
Theorem fit_t_shirt_default_male centroid sample icp (body shirt : option loc)
    (gender : string) (s : state) :
  gender <> "female"%string ->
  pre_scale_ratios gender = v 0.79 0.43 1.25 /\
  post_scale_factors gender = [1; q 1.04; q 1.3] /\
  fit_t_shirt centroid sample icp body shirt gender s
  = fit_t_shirt centroid sample icp body shirt "male" s.
Proof.
  intros Hg. apply String.eqb_neq in Hg.
  assert (Hpre : pre_scale_ratios gender = pre_scale_ratios "male")
    by (unfold pre_scale_ratios; now rewrite Hg).
  assert (Hpost : post_scale_factors gender = post_scale_factors "male")
    by (unfold post_scale_factors; now rewrite Hg).
  split; [rewrite Hpre; reflexivity|]. split; [rewrite Hpost; reflexivity|].
  unfold fit_t_shirt, prealign. now rewrite Hpre, Hpost.
Qed.

Lemma fit_t_shirt_default_male_witness :
  "Female"%string <> "female"%string /\
  pre_scale_ratios "Female" = v 0.79 0.43 1.25 /\
  post_scale_factors "Female" = [1; q 1.04; q 1.3] /\
  fit_t_shirt mean_centroid sample_vertices icp_identity (Some 0%nat) (Some 1%nat) "Female"
    (st0 [body_ex; unit_shirt])
  = fit_t_shirt mean_centroid sample_vertices icp_identity (Some 0%nat) (Some 1%nat) "male"
      (st0 [body_ex; unit_shirt]).
Proof.
  split; [discriminate|].
  apply (fit_t_shirt_default_male mean_centroid sample_vertices icp_identity
           (Some 0%nat) (Some 1%nat) "Female" (st0 [body_ex; unit_shirt])).
  discriminate.
Defined.

(** ** Further properties of the code *)

(** [translate_mesh] on a live mesh: [None] and no change unless the
    translation is a [list] or 1-d [np.ndarray] of exactly three numbers
    (a 3-tuple, for one, is rejected); for such a list or array every
    vertex is moved by the vector, faces kept. *)
Theorem translate_mesh_vertices (s : state) (l : loc) (m : mesh) (t : pyvec) :
  heap s !! l = Some m ->
  ((match t with PySeq [_; _; _] => False | _ => True end) ->
     translate_mesh (Some l) t s = (inr None, s)) /\
  (forall a b c : Qc, t = PySeq [a; b; c] ->
     translate_mesh (Some l) t s
     = (inr (Some l),
        mkState (<[l := mkMesh (map (fun p => mkV3 (vx p + a) (vy p + b) (vz p + c)) (vertices m))
                               (faces m)]> (heap s)) (stdout s))).
Proof.
  intros Hl. split.
  - intros Ht. destruct t as [xs|xs|]; [|reflexivity|reflexivity].
    destruct xs as [|x0 [|x1 [|x2 [|x3 xs]]]]; try reflexivity. contradiction.
  - intros a b c ->. unfold translate_mesh.
    erewrite bind_inr by (apply apply_transform_run; [reflexivity | exact Hl]).
    rewrite translate_mesh_faces. reflexivity.
Qed.

Lemma translate_mesh_vertices_witness :
  ((match PyTuple [q 1; q 2; q 3] with PySeq [_; _; _] => False | _ => True end) ->
     translate_mesh (Some 0%nat) (PyTuple [q 1; q 2; q 3]) (st0 [unit_shirt]) = (inr None, st0 [unit_shirt])) /\
  (forall a b c : Qc, PyTuple [q 1; q 2; q 3] = PySeq [a; b; c] ->
     translate_mesh (Some 0%nat) (PyTuple [q 1; q 2; q 3]) (st0 [unit_shirt])
     = (inr (Some 0%nat),
        mkState (<[0%nat := mkMesh (map (fun p => mkV3 (vx p + a) (vy p + b) (vz p + c))
                                        (vertices unit_shirt)) (faces unit_shirt)]>
                   (heap (st0 [unit_shirt]))) (stdout (st0 [unit_shirt])))).
Proof.
  apply (translate_mesh_vertices (st0 [unit_shirt]) 0%nat unit_shirt (PyTuple [q 1; q 2; q 3])).
  reflexivity.
Defined.

(** [align_meshes_icp]: with a [None] argument it returns [None] and
    changes nothing; on live meshes it never modifies an existing object,
    and a result it returns is a fresh deep copy of the source moved by
    the (4, 4) matrix the ICP call gave on the two samples. *)
Theorem align_meshes_icp_copy sample icp (s : state) (t p : loc) (tm pm : mesh)
    (mi : nat) (th : Qc) :
  heap s !! t = Some tm -> heap s !! p = Some pm ->
  (forall (x y : option loc), (x = None \/ y = None) ->
     align_meshes_icp sample icp x y mi th s = (inr None, s)) /\
  (forall l, (l < length (heap s))%nat ->
     heap (snd (align_meshes_icp sample icp (Some t) (Some p) mi th s)) !! l = heap s !! l) /\
  (forall a, fst (align_meshes_icp sample icp (Some t) (Some p) mi th s) = inr (Some a) ->
     a = length (heap s) /\
     exists tp sp T,
       sample tm 5000 = inr tp /\ sample pm 5000 = inr sp /\
       icp sp tp eye4 mi th = inr (Some T) /\ is_4x4 T = true /\
       heap (snd (align_meshes_icp sample icp (Some t) (Some p) mi th s)) !! a
         = Some (apply_transform_mesh T pm)).
Proof.
  intros Ht Hp. split.
  { intros x y [-> | ->]; [reflexivity | now destruct x]. }
  rewrite (align_run sample icp s t p tm pm mi th Ht Hp).
  unfold align_outcome.
  destruct (sample tm 5000) as [e|tp] eqn:E1.
  { split; [intros l Hl; simpl; now rewrite lookup_app_l by lia | discriminate]. }
  destruct (sample pm 5000) as [e|sp] eqn:E2.
  { split; [intros l Hl; simpl; now rewrite lookup_app_l by lia | discriminate]. }
  destruct (icp sp tp eye4 mi th) as [e|[T|]] eqn:E3;
    [| destruct (is_4x4 T) eqn:E4 |];
    (split; [intros l Hl; simpl; now rewrite lookup_app_l by lia|]);
    simpl; try discriminate.
  intros a Ha. inversion Ha; subst. split; [reflexivity|].
  exists tp, sp, T. repeat split; try assumption. apply lookup_last.
Qed.

Lemma align_meshes_icp_copy_witness :
  (forall (x y : option loc), (x = None \/ y = None) ->
     align_meshes_icp sample_vertices icp_identity x y 100 (q 0.01) (st0 [body_ex; unit_shirt])
     = (inr None, st0 [body_ex; unit_shirt])) /\
  (forall l, (l < length (heap (st0 [body_ex; unit_shirt])))%nat ->
     heap (snd (align_meshes_icp sample_vertices icp_identity (Some 0%nat) (Some 1%nat) 100 (q 0.01)
                  (st0 [body_ex; unit_shirt]))) !! l = heap (st0 [body_ex; unit_shirt]) !! l) /\
  (forall a, fst (align_meshes_icp sample_vertices icp_identity (Some 0%nat) (Some 1%nat) 100 (q 0.01)
                   (st0 [body_ex; unit_shirt])) = inr (Some a) ->
     a = length (heap (st0 [body_ex; unit_shirt])) /\
     exists tp sp T,
       sample_vertices body_ex 5000 = inr tp /\ sample_vertices unit_shirt 5000 = inr sp /\
       icp_identity sp tp eye4 100 (q 0.01) = inr (Some T) /\ is_4x4 T = true /\
       heap (snd (align_meshes_icp sample_vertices icp_identity (Some 0%nat) (Some 1%nat) 100 (q 0.01)
                    (st0 [body_ex; unit_shirt]))) !! a
         = Some (apply_transform_mesh T unit_shirt)).
Proof.
  apply (align_meshes_icp_copy sample_vertices icp_identity (st0 [body_ex; unit_shirt])
           0%nat 1%nat body_ex unit_shirt 100 (q 0.01)); reflexivity.
Defined.

(** [align_meshes_icp]: when both samples are drawn but the ICP call
    fails, the error is caught, [None] is returned and only the unused
    copy of the source is added to the heap.  The printed line is
    "ICP Error: " followed by [str(e)]: the ICP exception's message when
    the call raises, trimesh's shape error when it returns [None] or a
    matrix that is not (4, 4). *)
Theorem align_meshes_icp_failure sample icp (s : state) (t p : loc) (tm pm : mesh)
    (mi : nat) (th : Qc) (tp sp : list V3) :
  heap s !! t = Some tm -> heap s !! p = Some pm ->
  sample tm 5000 = inr tp -> sample pm 5000 = inr sp ->
  (forall e, icp sp tp eye4 mi th = inl e ->
     align_meshes_icp sample icp (Some t) (Some p) mi th s
     = (inr None, mkState (heap s ++ [pm]) (stdout s ++ [("ICP Error: " ++ show_exn e)%string]))) /\
  ((icp sp tp eye4 mi th = inr None \/
    exists T, icp sp tp eye4 mi th = inr (Some T) /\ is_4x4 T = false) ->
     align_meshes_icp sample icp (Some t) (Some p) mi th s
     = (inr None, mkState (heap s ++ [pm])
                          (stdout s ++ ["ICP Error: Transformation matrix must be (4, 4)!"%string]))).
Proof.
  intros Ht Hp E1 E2. rewrite (align_run sample icp s t p tm pm mi th Ht Hp).
  unfold align_outcome. rewrite E1, E2. split.
  - intros e ->. reflexivity.
  - intros [-> | [T [-> H4]]]; [reflexivity|]. now rewrite H4.
Qed.

Lemma align_meshes_icp_failure_witness :
  (forall e, icp_bad_shape (vertices unit_shirt) (vertices body_ex) eye4 100 (q 0.01) = inl e ->
     align_meshes_icp sample_vertices icp_bad_shape (Some 0%nat) (Some 1%nat) 100 (q 0.01)
       (st0 [body_ex; unit_shirt])
     = (inr None, mkState (heap (st0 [body_ex; unit_shirt]) ++ [unit_shirt])
                          (stdout (st0 [body_ex; unit_shirt]) ++ [("ICP Error: " ++ show_exn e)%string]))) /\
  ((icp_bad_shape (vertices unit_shirt) (vertices body_ex) eye4 100 (q 0.01) = inr None \/
    exists T, icp_bad_shape (vertices unit_shirt) (vertices body_ex) eye4 100 (q 0.01) = inr (Some T) /\
              is_4x4 T = false) ->
     align_meshes_icp sample_vertices icp_bad_shape (Some 0%nat) (Some 1%nat) 100 (q 0.01)
       (st0 [body_ex; unit_shirt])
     = (inr None, mkState (heap (st0 [body_ex; unit_shirt]) ++ [unit_shirt])
                          (stdout (st0 [body_ex; unit_shirt]) ++
                             ["ICP Error: Transformation matrix must be (4, 4)!"%string]))).
Proof.
  apply (align_meshes_icp_failure sample_vertices icp_bad_shape (st0 [body_ex; unit_shirt])
           0%nat 1%nat body_ex unit_shirt 100 (q 0.01) (vertices body_ex) (vertices unit_shirt));
    reflexivity.
Defined.

(** *** Output and result discipline *)

Lemma pw_ret {A} ok (x : A) : prints_within ok (ret x).
Proof. intros s. exists []. split; [symmetry; apply app_nil_r | constructor]. Qed.

Lemma pw_raise {A} ok e : prints_within ok (@raise A e).
Proof. intros s. exists []. split; [symmetry; apply app_nil_r | constructor]. Qed.

Lemma pw_lift {A} ok (r : exn + A) : prints_within ok (lift r).
Proof. intros s. exists []. split; [symmetry; apply app_nil_r | constructor]. Qed.

Lemma pw_print ok msg : ok msg -> prints_within ok (print msg).
Proof. intros H s. exists [msg]. split; [reflexivity | now constructor]. Qed.

Lemma pw_silent {A} ok (p : M A) : (forall s, stdout (snd (p s)) = stdout s) -> prints_within ok p.
Proof. intros H s. exists []. rewrite H, app_nil_r. split; [reflexivity | constructor]. Qed.

Lemma pw_bind {A B} ok (m : M A) (f : A -> M B) :
  prints_within ok m -> (forall x, prints_within ok (f x)) -> prints_within ok (bind m f).
Proof.
  intros Hm Hf s. unfold bind. destruct (Hm s) as [o1 [E1 F1]].
  destruct (m s) as [[e|x] s1]; simpl in *; [exists o1; now split|].
  destruct (Hf x s1) as [o2 [E2 F2]]. exists (o1 ++ o2).
  rewrite E2, E1, app_assoc. split; [reflexivity | now apply Forall_app].
Qed.

Lemma pw_bind_returns {A B} ok (Q : A -> Prop) (m : M A) (f : A -> M B) :
  returns Q m -> prints_within ok m -> (forall x, Q x -> prints_within ok (f x)) ->
  prints_within ok (bind m f).
Proof.
  intros Hq Hm Hf s. unfold bind. destruct (Hm s) as [o1 [E1 F1]].
  destruct (m s) as [[e|x] s1] eqn:Em; simpl in *; [exists o1; now split|].
  destruct (Hf x (Hq _ _ _ Em) s1) as [o2 [E2 F2]]. exists (o1 ++ o2).
  rewrite E2, E1, app_assoc. split; [reflexivity | now apply Forall_app].
Qed.

Lemma pw_try {A} ok (body : M A) (handler : exn -> M A) :
  prints_within ok body -> (forall e, prints_within ok (handler e)) ->
  prints_within ok (try_except body handler).
Proof.
  intros Hb Hh s. unfold try_except. destruct (Hb s) as [o1 [E1 F1]].
  destruct (body s) as [[e|x] s1]; simpl in *; [|exists o1; now split].
  destruct (Hh e s1) as [o2 [E2 F2]]. exists (o1 ++ o2).
  rewrite E2, E1, app_assoc. split; [reflexivity | now apply Forall_app].
Qed.

Lemma pw_load ok l : prints_within ok (load l).
Proof. apply pw_silent. intros s. unfold load. now destruct (heap s !! l). Qed.

Lemma pw_deepcopy ok l : prints_within ok (deepcopy l).
Proof. apply pw_silent. intros s. unfold deepcopy, bind, load. now destruct (heap s !! l). Qed.

Lemma pw_apply_transform ok l Mx : prints_within ok (apply_transform l Mx).
Proof.
  apply pw_silent. intros s. unfold apply_transform, bind, load, store, raise.
  destruct (is_4x4 Mx); [now destruct (heap s !! l) | reflexivity].
Qed.

Lemma pw_alloc ok m : prints_within ok (alloc m).
Proof. apply pw_silent. reflexivity. Qed.

Lemma pw_store ok l m : prints_within ok (store l m).
Proof. apply pw_silent. reflexivity. Qed.

Ltac pw_step :=
  first
    [ apply pw_bind; [|intros ?]
    | apply pw_try; [|intros ?]
    | apply pw_ret | apply pw_raise | apply pw_lift | apply pw_print
    | apply pw_load | apply pw_deepcopy | apply pw_apply_transform | apply pw_alloc
    | apply pw_store
    | match goal with |- prints_within _ (match ?x with _ => _ end) => destruct x end ].

Ltac pw := repeat pw_step.

Lemma returns_bind {A B} (Q1 : A -> Prop) (Q2 : B -> Prop) (m : M A) (f : A -> M B) :
  returns Q1 m -> (forall x, Q1 x -> returns Q2 (f x)) -> returns Q2 (bind m f).
Proof.
  intros H1 H2 s x s'. unfold bind.
  destruct (m s) as [[e|y] s1] eqn:E; [discriminate|]. apply (H2 y (H1 _ _ _ E)).
Qed.

Lemma returns_ret {A} (Q : A -> Prop) (x : A) : Q x -> returns Q (ret x).
Proof. intros H s y s' E. inversion E. now subst. Qed.

Lemma returns_raise {A} (Q : A -> Prop) e : returns Q (@raise A e).
Proof. intros s y s' E. discriminate. Qed.

Lemma returns_true {A} (p : M A) : returns (fun _ => True) p.
Proof. intros s y s' _. exact I. Qed.

Lemma returns_mono {A} (Q Q' : A -> Prop) (p : M A) :
  (forall x, Q x -> Q' x) -> returns Q p -> returns Q' p.
Proof. intros H Hp s x s' E. apply H, (Hp _ _ _ E). Qed.

(** *** Output of the source functions *)

Lemma pw_scale_mesh ok x f : prints_within ok (scale_mesh x f).
Proof. unfold scale_mesh. pw. Qed.

Lemma pw_translate_mesh ok x f : prints_within ok (translate_mesh x f).
Proof. unfold translate_mesh. pw. Qed.

Lemma pw_align ok sample icp x y mi th :
  (forall msg, ok ("ICP Error: " ++ msg)%string) ->
  prints_within ok (align_meshes_icp sample icp x y mi th).
Proof. intros H. unfold align_meshes_icp. pw; apply H. Qed.

Lemma pw_prealign ok centroid b sl gender : prints_within ok (prealign centroid b sl gender).
Proof. unfold prealign. pw; first [apply pw_scale_mesh | apply pw_translate_mesh]. Qed.

Lemma pw_fit ok centroid sample icp x y gender :
  (forall msg, ok ("ICP Error: " ++ msg)%string) ->
  ok "Using initial alignment (ICP failed)"%string ->
  prints_within ok (fit_t_shirt centroid sample icp x y gender).
Proof.
  intros H1 H2. unfold fit_t_shirt.
  pw; first [apply pw_prealign | apply pw_align; exact H1 | apply pw_scale_mesh | exact H2].
Qed.

Lemma pw_load_all ok ls : prints_within ok (load_all ls).
Proof. induction ls as [|l ls IH]; simpl; pw. exact IH. Qed.

Lemma pw_visualize ok viewer ms colors title :
  prints_within ok (visualize_meshes viewer ms colors title).
Proof. unfold visualize_meshes. pw. apply pw_load_all. Qed.

Lemma pw_load_mesh ok tl cat path :
  (forall e, ok ("Error loading " ++ path ++ ": " ++ show_exn e)%string) ->
  ok ("Error: Could not extract Trimesh from " ++ path)%string ->
  prints_within ok (load_mesh tl cat path).
Proof. intros H1 H2. unfold load_mesh, apply_scale. pw; auto. Qed.

(** *** Results of the source functions *)

Lemma returns_scale_some l a b c :
  returns (fun r => r = Some l) (scale_mesh (Some l) (PySeq [a; b; c])).
Proof.
  unfold scale_mesh. apply returns_bind with (Q1 := fun _ => True); [apply returns_true|].
  intros _ _. now apply returns_ret.
Qed.

Lemma returns_translate_some l a b c :
  returns (fun r => r = Some l) (translate_mesh (Some l) (PySeq [a; b; c])).
Proof.
  unfold translate_mesh. apply returns_bind with (Q1 := fun _ => True); [apply returns_true|].
  intros _ _. now apply returns_ret.
Qed.

Lemma returns_prealign centroid b sl gender :
  returns (fun r => r <> None) (prealign centroid b sl gender).
Proof.
  unfold prealign.
  apply returns_bind with (Q1 := fun _ => True); [apply returns_true | intros body _].
  apply returns_bind with (Q1 := fun _ => True); [apply returns_true | intros shirt _].
  destruct (extents body) as [bs|], (extents shirt) as [ss|]; try apply returns_raise.
  apply returns_bind with (Q1 := fun _ => True); [apply returns_true | intros c _].
  apply returns_bind with (Q1 := fun _ => True); [apply returns_true | intros sc _].
  destruct sc as [sc|]; [|apply returns_raise].
  apply returns_bind with (Q1 := fun _ => True); [apply returns_true | intros body' _].
  apply returns_bind with (Q1 := fun _ => True); [apply returns_true | intros scaled _].
  eapply returns_mono; [|apply returns_translate_some]. intros x ->. discriminate.
Qed.

Lemma returns_fit centroid sample icp b sl gender :
  returns (fun r => fst r <> None /\ snd r = Some b)
    (fit_t_shirt centroid sample icp (Some b) (Some sl) gender).
Proof.
  unfold fit_t_shirt.
  apply returns_bind with (Q1 := fun r => r <> None); [apply returns_prealign | intros pos Hpos].
  apply returns_bind with (Q1 := fun _ => True); [apply returns_true | intros al _].
  apply returns_bind with (Q1 := fun r => r <> None).
  { destruct al as [a|]; [apply returns_ret; discriminate|].
    apply returns_bind with (Q1 := fun _ => True); [apply returns_true|].
    intros _ _. now apply returns_ret. }
  intros al' Hal. destruct al' as [x|]; [|contradiction].
  apply returns_bind with (Q1 := fun r => r = Some x).
  { unfold post_scale_factors. destruct (String.eqb gender "female"); apply returns_scale_some. }
  intros fs ->. apply returns_ret. split; [discriminate | reflexivity].
Qed.

(** *** Heap frame of [fit_t_shirt] *)

Ltac prefix_lookup :=
  simpl;
  repeat rewrite list_lookup_insert_ne by (rewrite ?length_app; simpl; lia);
  repeat rewrite lookup_app_l by (rewrite ?length_app; simpl; lia);
  reflexivity.

Lemma fit_prefix centroid sample icp (s : state) (b sl : loc) (bm sm : mesh) (gender : string) :
  heap s !! b = Some bm -> heap s !! sl = Some sm ->
  forall l, (l < length (heap s))%nat ->
  heap (snd (fit_t_shirt centroid sample icp (Some b) (Some sl) gender s)) !! l = heap s !! l.
Proof.
  intros Hb Hs l Hl. unfold fit_t_shirt.
  destruct (extents bm) as [bs|] eqn:Eb; [destruct (extents sm) as [ss|] eqn:Es|].
  2, 3: erewrite bind_inl by (apply prealign_empty with (bm := bm) (sm := sm); auto);
        reflexivity.
  set (P := positioned_garment centroid bm sm bs ss gender).
  erewrite bind_inr by (apply prealign_run; eauto).
  erewrite bind_eq
    by (apply align_run with (tm := bm) (pm := P); simpl;
        first [apply lookup_last | apply lookup_app_live; exact Hb]).
  unfold align_outcome.
  destruct (sample bm 5000) as [e|tp]; [prefix_lookup|].
  destruct (sample P 5000) as [e|sp]; [prefix_lookup|].
  destruct (icp sp tp eye4 100 (q 0.01)) as [e|[T|]]; [| destruct (is_4x4 T) |];
    cbn [bind ret print fst snd heap stdout].
  all: erewrite bind_inr
         by (apply post_scale_run; first [apply lookup_app_live, lookup_last | apply lookup_last]).
  all: prefix_lookup.
Qed.

(** *** [visualize_meshes] and the fitting loop *)

Lemma load_all_run (s : state) ls ms :
  Forall2 (fun l m => heap s !! l = Some m) ls ms -> load_all ls s = (inr ms, s).
Proof.
  induction 1 as [|l m ls ms Hl _ IH]; [reflexivity|]. simpl.
  erewrite bind_inr by (apply load_run; exact Hl).
  erewrite bind_inr by exact IH. reflexivity.
Qed.

Lemma load_all_state (s : state) ls : snd (load_all ls s) = s.
Proof.
  induction ls as [|l ls IH]; [reflexivity|]. simpl. unfold bind at 1, load at 1.
  destruct (heap s !! l) as [m|]; [|reflexivity].
  unfold bind. destruct (load_all ls s) as [[e|ms] s1]; simpl in *; congruence.
Qed.

Lemma visualize_state viewer ms colors title (s : state) :
  snd (visualize_meshes viewer ms colors title s) = s.
Proof.
  unfold visualize_meshes, bind, lift.
  pose proof (load_all_state s (not_none (match ms with MList xs => xs | MSingle x => [x] end))) as H.
  destruct (load_all _ s) as [[e|scene] s1]; simpl in *; congruence.
Qed.

Lemma pw_fit_loop ok viewer centroid sample icp items shirt :
  (forall msg, ok ("ICP Error: " ++ msg)%string) ->
  ok "Using initial alignment (ICP failed)"%string ->
  prints_within ok (fit_loop viewer centroid sample icp items shirt).
Proof.
  intros H1 H2. induction items as [|[i gender] items IH]; cbn [fit_loop]; [apply pw_ret|].
  apply pw_bind_returns with (Q := fun r => fst r <> None /\ snd r = Some i).
  - apply returns_fit.
  - apply pw_fit; assumption.
  - intros [fs body] [Hfs _]. destruct fs as [f|]; [|contradiction]. cbv beta iota.
    apply pw_bind; [apply pw_visualize | intros _; exact IH].
Qed.

Lemma load_mesh_raise tl cat path e (s : state) :
  tl path = inl e ->
  load_mesh tl cat path s
  = (inr None, mkState (heap s) (stdout s ++ [("Error loading " ++ path ++ ": " ++ show_exn e)%string])).
Proof. intros H. unfold load_mesh, try_except, bind, lift. rewrite H. reflexivity. Qed.

Lemma load_mesh_catch tl cat path (s : state) :
  exists r s', load_mesh tl cat path s = (inr r, s').
Proof.
  unfold load_mesh, try_except.
  match goal with |- context [match ?b s with _ => _ end] => destruct (b s) as [[e|x] s1] end;
    eauto.
Qed.

(** [fit_t_shirt]: an exception raised while sampling the body's surface
    is not caught by the ICP [try] of [align_meshes_icp]: it propagates
    out of [fit_t_shirt]. *)
Theorem fit_t_shirt_sample_error centroid sample icp (s : state) (b sl : loc)
    (bm sm : mesh) (bs ss : V3) (gender : string) (e : exn) :
  heap s !! b = Some bm -> heap s !! sl = Some sm ->
  extents bm = Some bs -> extents sm = Some ss ->
  sample bm 5000 = inl e ->
  fst (fit_t_shirt centroid sample icp (Some b) (Some sl) gender s) = inl e.
Proof.
  intros Hb Hs Eb Es He. unfold fit_t_shirt.
  erewrite bind_inr by (apply prealign_run; eauto).
  erewrite bind_eq
    by (apply align_run with (tm := bm) (pm := positioned_garment centroid bm sm bs ss gender);
        simpl; first [apply lookup_last | apply lookup_app_live; exact Hb]).
  unfold align_outcome. rewrite He. reflexivity.
Qed.


Lemma fit_t_shirt_sample_error_witness :
  fst (fit_t_shirt mean_centroid sample_refuses icp_identity (Some 0%nat) (Some 1%nat) "female"
         (st0 [body_ex; unit_shirt])) = inl (LibError "no surface").
Proof.
  apply (fit_t_shirt_sample_error mean_centroid sample_refuses icp_identity (st0 [body_ex; unit_shirt])
           0%nat 1%nat body_ex unit_shirt (extents_or_zero body_ex) (extents_or_zero unit_shirt)
           "female" (LibError "no surface")); reflexivity.
Defined.

(** [fit_t_shirt] on live body and garment: when it returns, the fitted
    garment is never [None] and the second result is the body; objects
    that existed before the call are all unchanged; the only lines it
    prints are "ICP Error: " followed by a message and
    "Using initial alignment (ICP failed)". *)
Theorem fit_t_shirt_result centroid sample icp (s : state) (b sl : loc)
    (bm sm : mesh) (gender : string) :
  heap s !! b = Some bm -> heap s !! sl = Some sm ->
  (forall r, fst (fit_t_shirt centroid sample icp (Some b) (Some sl) gender s) = inr r ->
     fst r <> None /\ snd r = Some b) /\
  (forall l, (l < length (heap s))%nat ->
     heap (snd (fit_t_shirt centroid sample icp (Some b) (Some sl) gender s)) !! l = heap s !! l) /\
  (exists out,
     stdout (snd (fit_t_shirt centroid sample icp (Some b) (Some sl) gender s)) = stdout s ++ out /\
     Forall (fun msg => (exists e, msg = ("ICP Error: " ++ e)%string) \/
                        msg = "Using initial alignment (ICP failed)"%string) out).
Proof.
  intros Hb Hs. split; [|split].
  - intros r Hr. apply (returns_fit centroid sample icp b sl gender s r
                          (snd (fit_t_shirt centroid sample icp (Some b) (Some sl) gender s))).
    rewrite <- Hr. destruct (fit_t_shirt _ _ _ _ _ _ s); reflexivity.
  - apply (fit_prefix centroid sample icp s b sl bm sm gender Hb Hs).
  - apply pw_fit; [intros msg; left; eexists; reflexivity | right; reflexivity].
Qed.

Lemma fit_t_shirt_result_witness :
  (forall r, fst (fit_t_shirt mean_centroid sample_vertices icp_identity (Some 0%nat) (Some 1%nat) "male"
                    (st0 [body_ex; unit_shirt])) = inr r ->
     fst r <> None /\ snd r = Some 0%nat) /\
  (forall l, (l < length (heap (st0 [body_ex; unit_shirt])))%nat ->
     heap (snd (fit_t_shirt mean_centroid sample_vertices icp_identity (Some 0%nat) (Some 1%nat) "male"
                  (st0 [body_ex; unit_shirt]))) !! l = heap (st0 [body_ex; unit_shirt]) !! l) /\
  (exists out,
     stdout (snd (fit_t_shirt mean_centroid sample_vertices icp_identity (Some 0%nat) (Some 1%nat) "male"
                    (st0 [body_ex; unit_shirt]))) = stdout (st0 [body_ex; unit_shirt]) ++ out /\
     Forall (fun msg => (exists e, msg = ("ICP Error: " ++ e)%string) \/
                        msg = "Using initial alignment (ICP failed)"%string) out).
Proof.
  apply (fit_t_shirt_result mean_centroid sample_vertices icp_identity (st0 [body_ex; unit_shirt])
           0%nat 1%nat body_ex unit_shirt "male"); reflexivity.
Defined.

(** The [for] loop of [main]: when every body and the garment are live,
    every object that existed before the loop (the garment included) is
    unchanged after it, however it ends; in particular the second fit
    starts from the garment as loaded, not from the first fit's output. *)
Theorem fit_loop_frame viewer centroid sample icp (items : list (loc * string)) (shirt : loc)
    (s : state) :
  (forall i gender, In (i, gender) items -> (i < length (heap s))%nat) ->
  (shirt < length (heap s))%nat ->
  forall l, (l < length (heap s))%nat ->
  heap (snd (fit_loop viewer centroid sample icp items shirt s)) !! l = heap s !! l.
Proof.
  revert s. induction items as [|[i gender] items IH]; intros s Hitems Hsh l Hl; [reflexivity|].
  assert (Hi : (i < length (heap s))%nat) by (apply (Hitems i gender); left; reflexivity).
  destruct (lookup_lt_is_Some_2 _ _ Hi) as [bm Hb].
  destruct (lookup_lt_is_Some_2 _ _ Hsh) as [sm Hs].
  pose proof (fit_prefix centroid sample icp s i shirt bm sm gender Hb Hs) as P.
  cbn [fit_loop]. unfold bind at 1.
  destruct (fit_t_shirt centroid sample icp (Some i) (Some shirt) gender s)
    as [[e|[fs body]] s1] eqn:E; simpl in P; [now apply P|].
  assert (Live : forall k, (k < length (heap s))%nat -> (k < length (heap s1))%nat).
  { intros k Hk. specialize (P k Hk). destruct (lookup_lt_is_Some_2 _ _ Hk) as [x Hx].
    rewrite Hx in P. now apply lookup_lt_Some in P. }
  destruct fs as [f|]; cbv beta iota.
  - unfold bind at 1. pose proof (visualize_state viewer (MList [body; Some f]) main_colors
                                    "Fitting Result" s1) as V.
    destruct (visualize_meshes viewer (MList [body; Some f]) main_colors "Fitting Result" s1)
      as [[e|u] s2]; simpl in V; subst s2; [now apply P|].
    rewrite IH; [now apply P | | now apply Live | now apply Live].
    intros i' g' Hin. apply Live, (Hitems i' g'). now right.
  - simpl. now apply P.
Qed.


Lemma fit_loop_frame_witness :
  heap (snd (fit_loop viewer_ok mean_centroid sample_vertices icp_identity
               [(0%nat, "female"%string); (1%nat, "male"%string)] 2%nat
               (st0 [body_ex; body_ex; unit_shirt]))) !! 2%nat
  = heap (st0 [body_ex; body_ex; unit_shirt]) !! 2%nat.
Proof.
  apply (fit_loop_frame viewer_ok mean_centroid sample_vertices icp_identity
           [(0%nat, "female"%string); (1%nat, "male"%string)] 2%nat (st0 [body_ex; body_ex; unit_shirt])).
  - intros i g H. destruct H as [H|[H|[]]]; inversion H; simpl; lia.
  - simpl. lia.
  - simpl. lia.
Defined.

(** [visualize_meshes]: the colors and the title are never used; the
    scene holds exactly the meshes of the entries that are not [None], in
    order, and nothing else changes; a single mesh is shown as a
    one-element list. *)
Theorem visualize_meshes_scene viewer (s : state) (xs : list (option loc)) (ms : list mesh)
    (colors : list (list Qc)) (title : string) :
  Forall2 (fun l m => heap s !! l = Some m) (not_none xs) ms ->
  visualize_meshes viewer (MList xs) colors title s = (viewer ms, s) /\
  (forall x colors' title',
     visualize_meshes viewer (MSingle x) colors' title' = visualize_meshes viewer (MList [x]) colors title).
Proof.
  intros H. split; [|reflexivity].
  unfold visualize_meshes. erewrite bind_inr by (apply load_all_run; exact H). reflexivity.
Qed.

Lemma visualize_meshes_scene_witness :
  visualize_meshes viewer_ok (MList [None; Some 1%nat; None; Some 0%nat]) main_colors "Fitting Result"
    (st0 [body_ex; unit_shirt]) = (viewer_ok [unit_shirt; body_ex], st0 [body_ex; unit_shirt]) /\
  (forall x colors' title',
     visualize_meshes viewer_ok (MSingle x) colors' title'
     = visualize_meshes viewer_ok (MList [x]) main_colors "Fitting Result").
Proof.
  apply (visualize_meshes_scene viewer_ok (st0 [body_ex; unit_shirt]) [None; Some 1%nat; None; Some 0%nat]
           [unit_shirt; body_ex] main_colors "Fitting Result").
  repeat constructor.
Defined.

(** [main]: when [trimesh.load] raises on one of the three files, [main]
    returns normally, its last line is "Failed to load required meshes",
    and its run does not depend on the viewer, the centroid, the sampler
    or the ICP routine: no fitting and no display happen. *)
Theorem main_load_failure tl cat (s : state) (path : string) (e : exn) :
  In path ["female_body.glb"; "male_body-2.glb"; "normal_t-shirt_animated.glb"]%string ->
  tl path = inl e ->
  exists s' : state,
    (forall viewer centroid sample icp,
       main viewer centroid sample icp tl cat s = (inr tt, s')) /\
    exists pre, stdout s' = pre ++ ["Failed to load required meshes"%string].
Proof.
  intros Hin He.
  set (s1 := mkState (heap s) (stdout s ++ ["Starting virtual try-on"%string])).
  destruct (load_mesh_catch tl cat "female_body.glb" s1) as [r1 [s2 E1]].
  destruct (load_mesh_catch tl cat "male_body-2.glb" s2) as [r2 [s3 E2]].
  destruct (load_mesh_catch tl cat "normal_t-shirt_animated.glb" s3) as [r3 [s4 E3]].
  assert (Hnone : r1 = None \/ r2 = None \/ r3 = None).
  { destruct Hin as [<- | [<- | [<- | []]]];
      [left; rewrite (load_mesh_raise _ _ _ e) in E1
      | right; left; rewrite (load_mesh_raise _ _ _ e) in E2
      | right; right; rewrite (load_mesh_raise _ _ _ e) in E3];
      first [assumption | congruence]. }
  exists (mkState (heap s4) (stdout s4 ++ ["Failed to load required meshes"%string])).
  split; [|eexists; reflexivity].
  intros viewer centroid sample icp. unfold main.
  erewrite bind_inr by reflexivity.
  erewrite bind_inr by exact E1.
  erewrite bind_inr by exact E2.
  erewrite bind_inr by exact E3.
  destruct Hnone as [-> | [-> | ->]]; [| destruct r1 | destruct r1, r2]; reflexivity.
Qed.

Lemma main_load_failure_witness :
  exists s' : state,
    (forall viewer centroid sample icp,
       main viewer centroid sample icp load_missing_shirt no_concatenate (st0 []) = (inr tt, s')) /\
    exists pre, stdout s' = pre ++ ["Failed to load required meshes"%string].
Proof.
  apply (main_load_failure load_missing_shirt no_concatenate (st0 []) "normal_t-shirt_animated.glb"
           (LibError "not found")).
  - right. right. left. reflexivity.
  - reflexivity.
Defined.

(** [main] only appends to stdout and never prints "Fitting failed": the
    [if fitted_shirt is None] branch of its loop cannot be reached, since
    [fit_t_shirt] on two meshes returns a fitted mesh or raises. *)
Theorem main_never_fitting_failed viewer centroid sample icp tl cat (s : state) :
  exists out,
    stdout (snd (main viewer centroid sample icp tl cat s)) = stdout s ++ out /\
    ~ In "Fitting failed"%string out.
Proof.
  assert (H : prints_within (fun msg => msg <> "Fitting failed"%string)
                (main viewer centroid sample icp tl cat)).
  { unfold main.
    repeat first [apply pw_load_mesh | apply pw_fit_loop | pw_step];
      cbv beta; intros; intros ?H; simpl in H; discriminate H. }
  destruct (H s) as [out [E F]]. exists out. split; [exact E|].
  intros Hin. rewrite List.Forall_forall in F. exact (F _ Hin eq_refl).
Qed.

Lemma main_never_fitting_failed_witness :
  exists out,
    stdout (snd (main viewer_ok mean_centroid sample_vertices icp_identity load_missing_shirt
                   no_concatenate (st0 []))) = stdout (st0 []) ++ out /\
    ~ In "Fitting failed"%string out.
Proof. apply main_never_fitting_failed. Defined.

(** *** Scaling by positive factors *)

Lemma Qcmult_pos (x y : Qc) : 0 < x -> 0 < y -> 0 < x * y.
Proof.
  intros Hx Hy. pose proof (Qcmult_lt_compat_r 0 x y Hy Hx) as H.
  rewrite Qcmult_0_l in H. exact H.
Qed.

Lemma Qccompare_mult_l (k x y : Qc) : 0 < k -> (k * x ?= k * y) = (x ?= y).
Proof.
  intros Hk. destruct (x ?= y) eqn:E.
  - apply Qceq_alt in E. subst. apply Qceq_alt. reflexivity.
  - apply Qclt_alt in E. apply Qclt_alt.
    rewrite (Qcmult_comm k x), (Qcmult_comm k y). now apply Qcmult_lt_compat_r.
  - apply Qcgt_alt in E. apply Qcgt_alt.
    change (k * y < k * x).
    rewrite (Qcmult_comm k x), (Qcmult_comm k y). now apply Qcmult_lt_compat_r.
Qed.

Lemma qmax_mult (k x y : Qc) : 0 < k -> qmax (k * x) (k * y) = k * qmax x y.
Proof. intros Hk. unfold qmax. rewrite Qccompare_mult_l by exact Hk. now destruct (x ?= y). Qed.

Lemma qmin_mult (k x y : Qc) : 0 < k -> qmin (k * x) (k * y) = k * qmin x y.
Proof. intros Hk. unfold qmin. rewrite Qccompare_mult_l by exact Hk. now destruct (x ?= y). Qed.

Section PositiveStretch.

Variable f : V3.
Hypothesis Hfx : 0 < vx f.
Hypothesis Hfy : 0 < vy f.
Hypothesis Hfz : 0 < vz f.

Lemma vmax_stretch a b : vmax (stretch f a) (stretch f b) = stretch f (vmax a b).
Proof. unfold vmax, stretch; simpl. now rewrite !qmax_mult. Qed.

Lemma vmin_stretch a b : vmin (stretch f a) (stretch f b) = stretch f (vmin a b).
Proof. unfold vmin, stretch; simpl. now rewrite !qmin_mult. Qed.

Lemma fold_vmax_stretch vs w :
  fold_left vmax (map (stretch f) vs) (stretch f w) = stretch f (fold_left vmax vs w).
Proof.
  revert w. induction vs as [|u vs IH]; intros w; simpl; [reflexivity|].
  rewrite vmax_stretch. apply IH.
Qed.

Lemma fold_vmin_stretch vs w :
  fold_left vmin (map (stretch f) vs) (stretch f w) = stretch f (fold_left vmin vs w).
Proof.
  revert w. induction vs as [|u vs IH]; intros w; simpl; [reflexivity|].
  rewrite vmin_stretch. apply IH.
Qed.

Lemma extents_stretch m :
  extents (mkMesh (map (stretch f) (vertices m)) (faces m)) = option_map (stretch f) (extents m).
Proof.
  unfold extents, referenced; simpl. rewrite referenced_from_map.
  destruct (referenced_from 0 (vertices m) (faces m)) as [|w vs]; simpl; [reflexivity|].
  rewrite fold_vmax_stretch, fold_vmin_stretch. f_equal.
  unfold vsub, stretch; simpl. f_equal; ring.
Qed.

End PositiveStretch.

Lemma scale_positive_mesh a b c m :
  0 < a -> 0 < b -> 0 < c ->
  apply_transform_mesh (scale_matrix a b c) m
  = mkMesh (map (stretch (mkV3 a b c)) (vertices m)) (faces m).
Proof.
  intros Ha Hb Hc. unfold apply_transform_mesh. rewrite det3_scale.
  assert (Hd : (a * b * c ?= 0) = Gt)
    by (apply Qcgt_alt; change (0 < a * b * c); repeat apply Qcmult_pos; assumption).
  rewrite Hd. f_equal. apply map_ext. apply transform_scale.
Qed.

Lemma extents_scale_positive a b c m :
  0 < a -> 0 < b -> 0 < c ->
  extents (apply_transform_mesh (scale_matrix a b c) m)
  = option_map (stretch (mkV3 a b c)) (extents m).
Proof.
  intros Ha Hb Hc. rewrite scale_positive_mesh by assumption.
  apply extents_stretch; assumption.
Qed.

Lemma Qcdiv_pos (x y : Qc) : 0 < x -> 0 < y -> 0 < x / y.
Proof.
  intros Hx Hy. unfold Qcdiv. apply Qcmult_pos; [exact Hx|].
  unfold Qclt, Qcinv in *. cbn [this Q2Qc] in *.
  change (Qred 0) with 0%Q in *. rewrite (Qred_correct (/ this y)).
  apply Qinv_lt_0_compat. exact Hy.
Qed.

(** *** Scaling, composition and extents *)

(** [scale_mesh] applied to its own result, as in
    [scale_mesh(scale_mesh(mesh, f), g)]: the same object, every vertex
    coordinate multiplied by the product of the two factors. *)
Theorem scale_mesh_compose (s : state) (l : loc) (m : mesh) (a b c a' b' c' : Qc) :
  heap s !! l = Some m ->
  exists m' : mesh,
    bind (scale_mesh (Some l) (PySeq [a; b; c])) (fun r => scale_mesh r (PySeq [a'; b'; c'])) s
      = (inr (Some l), mkState (<[l := m']> (heap s)) (stdout s)) /\
    vertices m' = map (fun p => mkV3 (a * a' * vx p) (b * b' * vy p) (c * c' * vz p)) (vertices m).
Proof.
  intros Hl.
  exists (apply_transform_mesh (scale_matrix a' b' c') (apply_transform_mesh (scale_matrix a b c) m)).
  split.
  - erewrite bind_inr by (apply scale_mesh_run; exact Hl).
    erewrite scale_mesh_run by (simpl; apply list_lookup_insert_eq; eapply lookup_lt_Some; exact Hl).
    simpl. rewrite list_insert_insert, decide_True by reflexivity. reflexivity.
  - rewrite !scale_mesh_vertices, map_map. apply map_ext. intros p.
    unfold stretch; simpl. f_equal; ring.
Qed.

Lemma scale_mesh_compose_witness :
  exists m' : mesh,
    bind (scale_mesh (Some 0%nat) (PySeq [q 2; q (-1); 0]))
         (fun r => scale_mesh r (PySeq [q 0.5; q 3; q 7])) (st0 [unit_shirt])
      = (inr (Some 0%nat), mkState (<[0%nat := m']> (heap (st0 [unit_shirt]))) (stdout (st0 [unit_shirt]))) /\
    vertices m' = map (fun p => mkV3 (q 2 * q 0.5 * vx p) (q (-1) * q 3 * vy p) (0 * q 7 * vz p))
                      (vertices unit_shirt).
Proof.
  apply (scale_mesh_compose (st0 [unit_shirt]) 0%nat unit_shirt (q 2) (q (-1)) 0 (q 0.5) (q 3) (q 7)).
  reflexivity.
Defined.

(** [scale_mesh] by positive factors multiplies the mesh's extents
    componentwise by the factors (an empty mesh keeps [extents = None]). *)
Theorem scale_mesh_extents (s : state) (l : loc) (m : mesh) (a b c : Qc) :
  heap s !! l = Some m -> 0 < a -> 0 < b -> 0 < c ->
  exists m' : mesh,
    scale_mesh (Some l) (PySeq [a; b; c]) s
      = (inr (Some l), mkState (<[l := m']> (heap s)) (stdout s)) /\
    extents m' = option_map (fun e => mkV3 (a * vx e) (b * vy e) (c * vz e)) (extents m).
Proof.
  intros Hl Ha Hb Hc. exists (apply_transform_mesh (scale_matrix a b c) m). split.
  - apply scale_mesh_run. exact Hl.
  - rewrite extents_scale_positive by assumption. reflexivity.
Qed.

Lemma scale_mesh_extents_witness :
  exists m' : mesh,
    scale_mesh (Some 0%nat) (PySeq [q 2; q 0.5; q 3]) (st0 [body_ex])
      = (inr (Some 0%nat), mkState (<[0%nat := m']> (heap (st0 [body_ex]))) (stdout (st0 [body_ex]))) /\
    extents m' = option_map (fun e => mkV3 (q 2 * vx e) (q 0.5 * vy e) (q 3 * vz e)) (extents body_ex).
Proof.
  apply (scale_mesh_extents (st0 [body_ex]) 0%nat body_ex (q 2) (q 0.5) (q 3));
    first [reflexivity | vm_compute; reflexivity].
Defined.

(** Lines 108-120 of [fit_t_shirt]: for a body and a garment with
    positive extents, the positioned garment's extents are the body's
    extents times the per-gender ratios (0.71, 0.41, 1.42 for "female",
    0.79, 0.43, 1.25 otherwise); the translation does not change them. *)
Theorem prealign_extents centroid (s : state) (b sl : loc) (bm sm : mesh) (bs ss : V3)
    (gender : string) :
  heap s !! b = Some bm -> heap s !! sl = Some sm ->
  extents bm = Some bs -> extents sm = Some ss ->
  0 < vx bs -> 0 < vy bs -> 0 < vz bs ->
  0 < vx ss -> 0 < vy ss -> 0 < vz ss ->
  exists (p : loc) (s' : state) (pm : mesh),
    prealign centroid b sl gender s = (inr (Some p), s') /\
    heap s' !! p = Some pm /\
    extents pm = Some (vmul bs (pre_scale_ratios gender)).
Proof.
  intros Hb Hs Eb Es Hbx Hby Hbz Hsx Hsy Hsz.
  assert (Hr : 0 < vx (pre_scale_ratios gender) /\ 0 < vy (pre_scale_ratios gender) /\
               0 < vz (pre_scale_ratios gender)).
  { unfold pre_scale_ratios. destruct (String.eqb gender "female");
      repeat split; apply Qclt_alt; vm_compute; reflexivity. }
  destruct Hr as [Hrx [Hry Hrz]].
  exists (length (heap s)),
    (mkState (heap s ++ [positioned_garment centroid bm sm bs ss gender]) (stdout s)),
    (positioned_garment centroid bm sm bs ss gender).
  split; [apply prealign_run; assumption|]. split; [simpl; apply lookup_last|].
  unfold positioned_garment. rewrite translate_mesh_faces, extents_shift.
  rewrite extents_scale_positive, Es
    by (simpl; apply Qcmult_pos; [apply Qcdiv_pos|]; assumption).
  simpl. f_equal. unfold stretch, vmul, vdiv; simpl.
  assert (vx ss <> 0) by (intros E; rewrite E in Hsx; discriminate Hsx).
  assert (vy ss <> 0) by (intros E; rewrite E in Hsy; discriminate Hsy).
  assert (vz ss <> 0) by (intros E; rewrite E in Hsz; discriminate Hsz).
  f_equal; field; assumption.
Qed.

Lemma prealign_extents_witness :
  exists (p : loc) (s' : state) (pm : mesh),
    prealign mean_centroid 0%nat 1%nat "female" (st0 [body_ex; unit_shirt]) = (inr (Some p), s') /\
    heap s' !! p = Some pm /\
    extents pm = Some (vmul (extents_or_zero body_ex) (pre_scale_ratios "female")).
Proof.
  apply (prealign_extents mean_centroid (st0 [body_ex; unit_shirt]) 0%nat 1%nat body_ex unit_shirt
           (extents_or_zero body_ex) (extents_or_zero unit_shirt) "female");
    first [reflexivity | apply Qclt_alt; vm_compute; reflexivity].
Defined.

(** *** [load_mesh] *)

(** [load_mesh] never raises: whatever [trimesh.load] or the later steps
    raise is caught.  When [trimesh.load] raises, it prints
    "Error loading <path>: <error>", returns [None] and leaves every
    object as it was. *)
Theorem load_mesh_catches tl cat (path : string) (s : state) :
  (exists r s', load_mesh tl cat path s = (inr r, s')) /\
  (forall e, tl path = inl e ->
     load_mesh tl cat path s
     = (inr None, mkState (heap s) (stdout s ++ [("Error loading " ++ path ++ ": " ++ show_exn e)%string]))).
Proof.
  split; [apply load_mesh_catch|]. intros e He. now apply load_mesh_raise.
Qed.

Lemma load_mesh_catches_witness :
  (exists r s', load_mesh load_missing_shirt no_concatenate "normal_t-shirt_animated.glb" (st0 [body_ex])
                = (inr r, s')) /\
  (forall e, load_missing_shirt "normal_t-shirt_animated.glb" = inl e ->
     load_mesh load_missing_shirt no_concatenate "normal_t-shirt_animated.glb" (st0 [body_ex])
     = (inr None, mkState (heap (st0 [body_ex]))
                          (stdout (st0 [body_ex]) ++
                             [("Error loading " ++ "normal_t-shirt_animated.glb" ++ ": " ++ show_exn e)%string]))).
Proof. apply load_mesh_catches. Defined.

(** [load_mesh] on a [Trimesh] with faces: the mesh becomes a new object
    and its reference is returned.  When the median of its extents is
    above 10 (assumed millimetres) it is scaled by 0.001 in every axis,
    so its extents are divided by 1000; otherwise it is kept as loaded. *)
Theorem load_mesh_units tl cat (path : string) (s : state) (m : mesh) (e : V3) :
  tl path = inr (PTrimesh m) -> extents m = Some e ->
  exists m' : mesh,
    load_mesh tl cat path s
      = (inr (Some (length (heap s))), mkState (heap s ++ [m']) (stdout s)) /\
    (q 10 < median3 (vx e) (vy e) (vz e) ->
       m' = mkMesh (map (fun p => mkV3 (q 0.001 * vx p) (q 0.001 * vy p) (q 0.001 * vz p)) (vertices m))
                   (faces m) /\
       extents m' = Some (mkV3 (q 0.001 * vx e) (q 0.001 * vy e) (q 0.001 * vz e))) /\
    (median3 (vx e) (vy e) (vz e) <= q 10 -> m' = m).
Proof.
  intros Htl Ee.
  assert (Hk : 0 < q 0.001) by (apply Qclt_alt; vm_compute; reflexivity).
  unfold load_mesh, try_except.
  erewrite bind_inr by (unfold lift; rewrite Htl; reflexivity).
  erewrite bind_inr by reflexivity. cbv beta iota zeta.
  erewrite bind_inr by reflexivity. rewrite Ee.
  destruct (q 10 ?= median3 (vx e) (vy e) (vz e)) eqn:C.
  1, 3: exists m; split; [reflexivity|]; split;
        [intros H; pose proof (proj1 (Qclt_alt _ _) H); congruence | intros _; reflexivity].
  exists (apply_transform_mesh (scale_matrix (q 0.001) (q 0.001) (q 0.001)) m). split.
  - unfold apply_scale.
    erewrite bind_inr by (apply apply_transform_run; [reflexivity | simpl; apply lookup_last]).
    simpl. now rewrite insert_last.
  - split.
    + intros _. rewrite scale_positive_mesh by exact Hk. split; [reflexivity|].
      rewrite extents_stretch, Ee by exact Hk. reflexivity.
    + intros H. exfalso. apply (proj1 (Qcle_alt _ _) H).
      apply Qcgt_alt. exact (proj2 (Qclt_alt _ _) C).
Qed.

Lemma load_mesh_units_witness :
  exists m' : mesh,
    load_mesh load_body_mm no_concatenate "female_body.glb" (st0 [])
      = (inr (Some (length (heap (st0 [])))), mkState (heap (st0 []) ++ [m']) (stdout (st0 []))) /\
    (q 10 < median3 (vx (extents_or_zero body_mm)) (vy (extents_or_zero body_mm)) (vz (extents_or_zero body_mm)) ->
       m' = mkMesh (map (fun p => mkV3 (q 0.001 * vx p) (q 0.001 * vy p) (q 0.001 * vz p)) (vertices body_mm))
                   (faces body_mm) /\
       extents m' = Some (mkV3 (q 0.001 * vx (extents_or_zero body_mm)) (q 0.001 * vy (extents_or_zero body_mm))
                               (q 0.001 * vz (extents_or_zero body_mm)))) /\
    (median3 (vx (extents_or_zero body_mm)) (vy (extents_or_zero body_mm)) (vz (extents_or_zero body_mm)) <= q 10 ->
       m' = body_mm).
Proof.
  apply (load_mesh_units load_body_mm no_concatenate "female_body.glb" (st0 []) body_mm
           (extents_or_zero body_mm)); reflexivity.
Defined.

(** [load_mesh] on a [Trimesh] without faces ([extents] is [None]): the
    [np.median] call raises numpy's [TypeError], the error is caught,
    "Error loading <path>: unsupported operand type(s) for /: 'NoneType'
    and 'int'" (its [str(e)]) is printed and [None] returned. *)
Theorem load_mesh_empty tl cat (path : string) (s : state) (m : mesh) :
  tl path = inr (PTrimesh m) -> faces m = [] ->
  fst (load_mesh tl cat path s) = inr None /\
  stdout (snd (load_mesh tl cat path s)) = stdout s ++ [("Error loading " ++ path ++ ": " ++ median_none_error)%string].
Proof.
  intros Htl Hf. unfold load_mesh, try_except.
  erewrite bind_inr by (unfold lift; rewrite Htl; reflexivity).
  erewrite bind_inr by reflexivity. cbv beta iota zeta.
  erewrite bind_inr by reflexivity. rewrite (no_faces_extents m Hf).
  split; reflexivity.
Qed.

Lemma load_mesh_empty_witness :
  fst (load_mesh (fun _ => inr (PTrimesh (mkMesh [v 0 0 0; v 1 1 1] []))) no_concatenate
         "female_body.glb" (st0 [])) = inr None /\
  stdout (snd (load_mesh (fun _ => inr (PTrimesh (mkMesh [v 0 0 0; v 1 1 1] []))) no_concatenate
                 "female_body.glb" (st0 [])))
  = stdout (st0 []) ++ [("Error loading " ++ "female_body.glb" ++ ": " ++ median_none_error)%string].
Proof.
  apply (load_mesh_empty (fun _ => inr (PTrimesh (mkMesh [v 0 0 0; v 1 1 1] []))) no_concatenate
           "female_body.glb" (st0 []) (mkMesh [v 0 0 0; v 1 1 1] [])); reflexivity.
Defined.

(** [load_mesh] on a [Scene]: it behaves exactly as if [trimesh.load]
    had returned the concatenation of the scene's [Trimesh] geometries
    (other geometry is dropped), provided the concatenation is not itself
    a scene. *)
Theorem load_mesh_scene tl cat (path : string) (s : state) (gs : list pyobj) (r : exn + pyobj) :
  tl path = inr (PScene gs) -> cat (trimeshes gs) = r ->
  (forall gs', r <> inr (PScene gs')) ->
  load_mesh tl cat path s = load_mesh (fun _ => r) cat path s.
Proof.
  intros Htl Hcat Hr. unfold load_mesh, try_except, bind, lift, ret.
  rewrite Htl, Hcat. destruct r as [e|o]; [reflexivity|].
  destruct o as [m|gs'| |]; try reflexivity. exfalso. exact (Hr gs' eq_refl).
Qed.

Lemma load_mesh_scene_witness :
  load_mesh load_scene concatenate_first "female_body.glb" (st0 [])
  = load_mesh (fun _ => inr (PTrimesh body_ex)) concatenate_first "female_body.glb" (st0 []).
Proof.
  apply (load_mesh_scene load_scene concatenate_first "female_body.glb" (st0 [])
           [PNoGeometry; PTrimesh body_ex] (inr (PTrimesh body_ex))); try reflexivity.
  intros gs' H. discriminate H.
Defined.

(** [load_mesh] when the loaded object is neither a [Trimesh] nor a
    [Scene], and has no [Trimesh] as its first geometry: it prints
    "Error: Could not extract Trimesh from <path>", returns [None] and
    changes no object. *)
Theorem load_mesh_no_trimesh tl cat (path : string) (s : state) (o : pyobj) :
  tl path = inr o ->
  match o with
  | PTrimesh _ | PScene _ | PGeometryHolder (PTrimesh _ :: _) => False
  | _ => True
  end ->
  load_mesh tl cat path s
  = (inr None, mkState (heap s) (stdout s ++ [("Error: Could not extract Trimesh from " ++ path)%string])).
Proof.
  intros Htl Ho. unfold load_mesh, try_except, bind, lift, ret.
  rewrite Htl. destruct o as [m|gs|[|g gs]|]; try contradiction; try reflexivity.
  destruct g; try contradiction; reflexivity.
Qed.

Lemma load_mesh_no_trimesh_witness :
  load_mesh load_points no_concatenate "male_body-2.glb" (st0 [body_ex])
  = (inr None, mkState (heap (st0 [body_ex]))
                       (stdout (st0 [body_ex]) ++ [("Error: Could not extract Trimesh from " ++ "male_body-2.glb")%string])).
Proof.
  apply (load_mesh_no_trimesh load_points no_concatenate "male_body-2.glb" (st0 [body_ex])
           (PGeometryHolder [PNoGeometry])); [reflexivity | exact I].
Defined.

Lemma returns_fit_loop_viewer_fails viewer centroid sample icp it items shirt e :
  (forall scene, viewer scene = inl e) ->
  returns (fun _ => False) (fit_loop viewer centroid sample icp (it :: items) shirt).
Proof.
  intros Hv. destruct it as [i gender]. cbn [fit_loop].
  apply returns_bind with (Q1 := fun r => fst r <> None /\ snd r = Some i); [apply returns_fit|].
  intros [fs body] [Hfs _]. destruct fs as [f|]; [|contradiction]. cbv beta iota.
  apply returns_bind with (Q1 := fun _ => False); [|contradiction].
  unfold visualize_meshes. apply returns_bind with (Q1 := fun _ => True); [apply returns_true|].
  intros scene _ s x s' E. unfold lift in E. rewrite Hv in E. discriminate.
Qed.

(** [main] when the viewer cannot open: the error raised by the first
    [pyrender.Viewer] call is not caught, so "Done" is never printed. *)
Theorem main_viewer_failure viewer centroid sample icp tl cat (s : state) (e : exn) :
  (forall scene, viewer scene = inl e) ->
  exists out,
    stdout (snd (main viewer centroid sample icp tl cat s)) = stdout s ++ out /\
    ~ In "Done"%string out.
Proof.
  intros Hv.
  assert (H : prints_within (fun msg => msg <> "Done"%string)
                (main viewer centroid sample icp tl cat)).
  { unfold main.
    repeat first
      [ apply pw_load_mesh
      | apply (pw_bind_returns _ (fun _ => False));
        [ apply (returns_fit_loop_viewer_fails _ _ _ _ _ _ _ e Hv)
        | apply pw_fit_loop
        | intros ? [] ]
      | pw_step ].
    all: cbv beta; intros; intros ?H; simpl in H; discriminate H. }
  destruct (H s) as [out [E F]]. exists out. split; [exact E|].
  intros Hin. rewrite List.Forall_forall in F. exact (F _ Hin eq_refl).
Qed.

Lemma main_viewer_failure_witness :
  exists out,
    stdout (snd (main viewer_fails mean_centroid sample_vertices icp_identity load_body_mm
                   no_concatenate (st0 []))) = stdout (st0 []) ++ out /\
    ~ In "Done"%string out.
Proof.
  apply (main_viewer_failure viewer_fails mean_centroid sample_vertices icp_identity load_body_mm
           no_concatenate (st0 []) (LibError "no display")).
  intros scene. reflexivity.
Defined.
